(* ===================================================================== *)
(*  JoséCoin ledger (jcoin/josecoin.py): a shallow embedding of the      *)
(*  request handlers over an explicit account store, and the properties  *)
(*  of the ledger proved about it.                                       *)
(* ===================================================================== *)

From Stdlib Require Import ZArith QArith Qpower Qcanon Lia.
From Stdlib Require Import DecimalString DecimalNat.
From stdpp Require Import gmap strings list fin_maps relations.

Local Open Scope Z_scope.

(* --------------------------------------------------------------------- *)
(*  Decimal values                                                       *)
(* --------------------------------------------------------------------- *)

(** A value of Python's [decimal.Decimal], which is also what the store's
    exact numeric column holds: a finite number (an exact rational; every
    decimal is one), one of the two infinities, or NaN.  [ext/stats.py]
    tests balances against [Decimal('inf')], so infinite balances are part
    of the data. *)
Inductive decimal : Type :=
  | Fin (q : Qc)
  | PInf
  | NInf
  | NaN.

Definition is_infinite (d : decimal) : bool :=
  match d with PInf | NInf => true | _ => false end.

(** Finite decimals written as integers and as integer/10^k. *)
Definition dZ (z : Z) : decimal := Fin (Q2Qc (inject_Z z)).
Definition dQ (n : Z) (d : positive) : decimal := Fin (Q2Qc (n # d)).

(** The exceptions the handlers can end with.  [errors.py] is not part of
    the sources at hand; its classes are only names here.  The message of
    the insufficient-funds error is an f-string over the two compared
    values, kept structured. *)
Inductive message : Type :=
  | Msg (s : string)
  | NotEnoughFunds (amount sender_amount : decimal).

Inductive exn : Type :=
  | InputError (m : message)
  | AccountNotFoundError (m : message)
  | ConditionError (m : message)
  | InvalidOperation          (* decimal.InvalidOperation *)
  | TypeError                 (* dict(None) *)
  | ValueError                (* tuple unpacking, int() *)
  | UniqueViolationError      (* asyncpg: duplicate key *)
  | StoreError.               (* asyncpg: any other failure of a statement *)

Inductive result (A : Type) : Type :=
  | Ok (a : A)
  | Raise (e : exn).
Arguments Ok {A} a.
Arguments Raise {A} e.

(* --------------------------------------------------------------------- *)
(*  Arithmetic of the store's numeric type                               *)
(* --------------------------------------------------------------------- *)

Module Numeric.

(** [numeric + numeric] in the store: exact on finite values, NaN is
    absorbing, opposite infinities give NaN.  It never fails. *)
Definition add (a b : decimal) : decimal :=
  match a, b with
  | NaN, _ | _, NaN => NaN
  | PInf, NInf | NInf, PInf => NaN
  | PInf, _ | _, PInf => PInf
  | NInf, _ | _, NInf => NInf
  | Fin x, Fin y => Fin (x + y)%Qc
  end.

Definition neg (a : decimal) : decimal :=
  match a with
  | Fin x => Fin (- x)%Qc
  | PInf => NInf
  | NInf => PInf
  | NaN => NaN
  end.

Definition sub (a b : decimal) : decimal := add a (neg b).

(** [SUM(col)]: NULL ([None]) over no rows. *)
Definition sum (l : list decimal) : option decimal :=
  match l with
  | [] => None
  | x :: l' => Some (foldl add x l')
  end.

End Numeric.

(* --------------------------------------------------------------------- *)
(*  Arithmetic and comparison of decimal.Decimal in the handler          *)
(* --------------------------------------------------------------------- *)

Module PyDecimal.

(** Number of decimal digits of a positive integer: [n] is divided by ten
    until it is below ten; the number of its bits is fuel enough. *)
Fixpoint digits_upto (fuel : nat) (n : Z) : Z :=
  match fuel with
  | O => 1
  | S fuel' => if n <? 10 then 1 else 1 + digits_upto fuel' (n / 10)
  end.

Definition digits (p : positive) : Z :=
  digits_upto (S (Z.to_nat (Z.log2 (Z.pos p)))) (Z.pos p).

Definition pow10 (k : Z) : Q := (inject_Z 10 ^ k)%Q.

(** Nearest integer to [n / d], ties to even (ROUND_HALF_EVEN), for
    [0 <= n]. *)
Definition round_half_even (n : Z) (d : positive) : Z :=
  let fl := n / Z.pos d in
  let r := n mod Z.pos d in
  match 2 * r ?= Z.pos d with
  | Lt => fl
  | Gt => fl + 1
  | Eq => if Z.even fl then fl else fl + 1
  end.

(** Precision of the default context. *)
Definition prec : Z := 28.

(** The exponent [e] with [10^e <= n/d < 10^(e+1)]. *)
Definition adjusted (n d : positive) : Z :=
  let e0 := digits n - digits d in
  if Qle_bool (pow10 e0) (Z.pos n # d) then e0 else e0 - 1.

(** Rounding of an exact result to the context's [prec] significant
    digits.  Results that fit are returned as they are.  (The exponent
    bounds of the context, 10^(+-999999), are not modelled.) *)
Definition fix_q (q : Q) : Q :=
  match Qnum q with
  | Z0 => 0%Q
  | Zpos n =>
      let e := adjusted n (Qden q) in
      let s := ((Z.pos n # Qden q) * pow10 (prec - 1 - e))%Q in
      (inject_Z (round_half_even (Qnum s) (Qden s)) * pow10 (e - (prec - 1)))%Q
  | Zneg n =>
      let e := adjusted n (Qden q) in
      let s := ((Z.pos n # Qden q) * pow10 (prec - 1 - e))%Q in
      (- (inject_Z (round_half_even (Qnum s) (Qden s)) * pow10 (e - (prec - 1))))%Q
  end.

Definition ctx_fix (x : Qc) : Qc := Q2Qc (fix_q (this x)).

(** [a + b]: quiet NaN propagates, opposite infinities signal
    InvalidOperation (trapped by default, so it raises), a finite sum is
    rounded by the context. *)
Definition add (a b : decimal) : result decimal :=
  match a, b with
  | NaN, _ | _, NaN => Ok NaN
  | PInf, NInf | NInf, PInf => Raise InvalidOperation
  | PInf, _ | _, PInf => Ok PInf
  | NInf, _ | _, NInf => Ok NInf
  | Fin x, Fin y => Ok (Fin (ctx_fix (x + y)%Qc))
  end.

Definition sub (a b : decimal) : result decimal := add a (Numeric.neg b).

(** Three-way comparison of two non-NaN values. *)
Definition cmp (a b : decimal) : comparison :=
  match a, b with
  | Fin x, Fin y => (x ?= y)%Qc
  | NInf, NInf | PInf, PInf => Eq
  | NInf, _ | _, PInf => Lt
  | _, _ => Gt
  end.

Definition is_nan (a : decimal) : bool :=
  match a with NaN => true | _ => false end.

(** [a < b] and [a > b]: an ordering comparison involving NaN signals
    InvalidOperation; otherwise the comparison is exact. *)
Definition lt (a b : decimal) : result bool :=
  if is_nan a || is_nan b then Raise InvalidOperation
  else Ok (match cmp a b with Lt => true | _ => false end).

Definition gt (a b : decimal) : result bool :=
  if is_nan a || is_nan b then Raise InvalidOperation
  else Ok (match cmp a b with Gt => true | _ => false end).

(** The float literal [0.0009], converted exactly as a comparison with a
    float does ([Decimal.from_float]): the double nearest to 9/10000 is
    8301034833169298 * 2^-63. *)
Definition float_0_0009 : decimal := dQ 8301034833169298 (2 ^ 63).

End PyDecimal.

(* --------------------------------------------------------------------- *)
(*  The account store                                                    *)
(* --------------------------------------------------------------------- *)

Module AccountType.
Definition USER : Z := 0.
Definition TAXBANK : Z := 1.
End AccountType.

(** Rows of the three tables.  The schema is not part of the sources at
    hand; the columns are the ones the statements of [josecoin.py] name.
    [accounts] is keyed by [account_id] (the store enforces its
    uniqueness), so the table is a finite map from the id to the rest of
    the row; the other two tables are bags of rows. *)
Record account : Type := Account {
  acc_type : Z;
  acc_amount : decimal
}.

Record wallet : Type := Wallet {
  user_id : Z;
  taxpaid : decimal;
  steal_uses : Z;
  steal_success : Z
}.

Record tx : Type := Tx {
  tx_sender : Z;
  tx_receiver : Z;
  tx_amount : decimal
}.

Record db : Type := Db {
  accounts : gmap Z account;
  wallets : list wallet;
  transactions : list tx
}.

Definition empty_db : db := Db ∅ [] [].

(** Modelled from the spec: the column defaults of the missing schema.  A
    new account starts at the store's default balance, zero, and a new
    wallet row has zero-valued counters. *)
Definition default_amount : decimal := dZ 0.
Definition default_wallet (id : Z) : wallet := Wallet id (dZ 0) 0 0.

(** The world a handler runs in: the store, and for each statement still
    to be sent whether the store fails it (lost connection, timeout; a
    plan that has run out means no further failure). *)
Record world : Type := World {
  store : db;
  faults : list bool
}.

Definition M (A : Type) : Type := world → result A * world.

Definition ret {A} (a : A) : M A := λ w, (Ok a, w).
Definition raise {A} (e : exn) : M A := λ w, (Raise e, w).
Definition bind {A B} (m : M A) (k : A → M B) : M B :=
  λ w, match m w with
       | (Ok a, w') => k a w'
       | (Raise e, w') => (Raise e, w')
       end.
Definition lift {A} (r : result A) : M A := λ w, (r, w).

Declare Scope ledger_scope.
Delimit Scope ledger_scope with ledger.
Notation "x <- m ;; k" := (bind m (λ x, k))
  (at level 100, m at next level, right associativity,
   format "'[v' x  <-  m ;;  '/' k ']'") : ledger_scope.
Notation "m ;;; k" := (bind m (λ _, k))
  (at level 100, right associativity) : ledger_scope.
Local Open Scope ledger_scope.

(** One statement awaited on the store.  It either fails as the plan says,
    leaving the store as it was, or runs [f]. *)
Definition statement {A} (f : db → result A * db) : M A :=
  λ w,
    let go fs := let '(r, d) := f (store w) in (r, World d fs) in
    match faults w with
    | true :: fs => (Raise StoreError, World (store w) fs)
    | false :: fs => go fs
    | [] => go []
    end.

(** [async with conn.transaction()]: when the body raises, the store is
    rolled back to what it was on entry. *)
Definition transaction {A} (body : M A) : M A :=
  λ w, match body w with
       | (Ok a, w') => (Ok a, w')
       | (Raise e, w') => (Raise e, World (store w) (faults w'))
       end.

(** Running a handler on a store that does not fail. *)
Definition run {A} (m : M A) (d : db) : result A * db :=
  let '(r, w) := m (World d []) in (r, store w).

(* --------------------------------------------------------------------- *)
(*  Command tags                                                         *)
(* --------------------------------------------------------------------- *)

Module Tag.

Definition of_nat (n : nat) : string :=
  NilZero.string_of_uint (Nat.to_uint n).

(** The status strings [execute] returns. *)
Definition insert (rows : nat) : string := "INSERT 0 " +:+ of_nat rows.
Definition update (rows : nat) : string := "UPDATE " +:+ of_nat rows.

(** [int(s)] on a string of digits; anything else is a ValueError. *)
Definition int (s : string) : result nat :=
  match NilZero.uint_of_string s with
  | Some d => Ok (Nat.of_uint d)
  | None => Raise ValueError
  end.

(** [a, b = l] and [a, b, c = l]. *)
Definition unpack2 {A} (l : list A) : result (A * A) :=
  match l with
  | [a; b] => Ok (a, b)
  | _ => Raise ValueError
  end.

Definition unpack3 {A} (l : list A) : result (A * A * A) :=
  match l with
  | [a; b; c] => Ok (a, b, c)
  | _ => Raise ValueError
  end.

End Tag.

(* --------------------------------------------------------------------- *)
(*  The statements of josecoin.py                                        *)
(* --------------------------------------------------------------------- *)

Module Sql.

(** SELECT account_id, account_type, amount FROM accounts
    WHERE account_id = $1 *)
Definition select_account (account_id : Z) : M (option (Z * account)) :=
  statement (λ d, (Ok ((λ a, (account_id, a)) <$> accounts d !! account_id), d)).

(** SELECT taxpaid, steal_uses, steal_success FROM wallets
    WHERE user_id=$1   (fetchrow: the first row, if any) *)
Definition select_wallet (account_id : Z) : M (option wallet) :=
  statement (λ d,
    (Ok (head (filter (λ w, user_id w = account_id) (wallets d))), d)).

(** INSERT INTO accounts (account_id, account_type) VALUES ($1, $2) *)
Definition insert_account (account_id account_type : Z) : M string :=
  statement (λ d,
    match accounts d !! account_id with
    | Some _ => (Raise UniqueViolationError, d)
    | None =>
        (Ok (Tag.insert 1),
         Db (<[account_id := Account account_type default_amount]> (accounts d))
            (wallets d) (transactions d))
    end).

(** INSERT INTO wallets (user_id) VALUES ($1) *)
Definition insert_wallet (account_id : Z) : M string :=
  statement (λ d,
    (Ok (Tag.insert 1),
     Db (accounts d) (wallets d ++ [default_wallet account_id]) (transactions d))).

(** SELECT * FROM accounts WHERE account_id=$1 or account_id=$2 *)
Definition select_accounts (id1 id2 : Z) : M (list (Z * account)) :=
  statement (λ d,
    (Ok (filter (λ r, r.1 = id1 ∨ r.1 = id2) (map_to_list (accounts d))), d)).

(** UPDATE accounts SET amount=accounts.amount + $1 WHERE account_id = $2
    (and the same with [-]) *)
Definition update_amount (op : decimal → decimal → decimal)
    (amount : decimal) (account_id : Z) : M string :=
  statement (λ d,
    (Ok (Tag.update (match accounts d !! account_id with Some _ => 1 | None => 0 end)%nat),
     Db (alter (λ a, Account (acc_type a) (op (acc_amount a) amount))
               account_id (accounts d))
        (wallets d) (transactions d))).

(** INSERT INTO transactions (sender, receiver, amount)
    VALUES ($1, $2, $3) *)
Definition insert_transaction (sender receiver : Z) (amount : decimal)
    : M string :=
  statement (λ d,
    (Ok (Tag.insert 1),
     Db (accounts d) (wallets d) (transactions d ++ [Tx sender receiver amount]))).

(** UPDATE wallets SET <counter> = <counter> + 1 WHERE user_id=$1 *)
Definition update_wallets (bump : wallet → wallet) (wallet_id : Z) : M string :=
  statement (λ d,
    (Ok (Tag.update (length (filter (λ w, user_id w = wallet_id) (wallets d)))),
     Db (accounts d)
        ((λ w, if decide (user_id w = wallet_id) then bump w else w) <$> wallets d)
        (transactions d))).

(** SELECT SUM(amount) FROM accounts WHERE account_type=$1 *)
Definition select_sum_by_type (acc_type' : Z) : M (option decimal) :=
  statement (λ d,
    (Ok (Numeric.sum
           (acc_amount <$>
              filter (λ a, acc_type a = acc_type') (map_to_list (accounts d)).*2)),
     d)).

(** SELECT SUM(amount) FROM accounts; *)
Definition select_sum : M (option decimal) :=
  statement (λ d,
    (Ok (Numeric.sum (acc_amount <$> (map_to_list (accounts d)).*2)), d)).

End Sql.

(* --------------------------------------------------------------------- *)
(*  The handlers                                                         *)
(* --------------------------------------------------------------------- *)

(** What [get_wallet] answers: the account's columns and, for a user
    account, the three wallet columns merged in. *)
Record account_view : Type := AccountView {
  view_account_id : Z;
  view_account_type : Z;
  view_amount : decimal;
  view_wallet : option (decimal * Z * Z)
}.

(** GET /api/wallets/<account_id> *)
Definition get_wallet (account_id : Z) : M account_view :=
  account <- Sql.select_account account_id ;;
  match account with
  | None => raise (AccountNotFoundError (Msg "Account not found"))
  | Some (id, a) =>
      let daccount := AccountView id (acc_type a) (acc_amount a) None in
      if decide (acc_type a = AccountType.USER) then
        wallet <- Sql.select_wallet account_id ;;
        match wallet with
        | None => raise TypeError
        | Some w =>
            ret (AccountView id (acc_type a) (acc_amount a)
                   (Some (taxpaid w, steal_uses w, steal_success w)))
        end
      else ret daccount
  end.

(** POST /api/wallets/<account_id>, with [account_type] the decoded
    [type] field of the body.  The answer is the row count of the command
    tag, as the string it is. *)
Definition create_account (account_id account_type : Z) : M string :=
  res <- Sql.insert_account account_id account_type ;;
  (if decide (account_type = 0)
   then (Sql.insert_wallet account_id ;;; ret tt)
   else ret tt) ;;;
  t <- lift (Tag.unpack3 (String.words res)) ;;
  ret t.2.

Record transfer_response : Type := TransferResponse {
  sender_amount : decimal;
  receiver_amount : decimal
}.

(** The dict comprehension [{a['account_id']: a for a in accs}]. *)
Definition by_account_id (accs : list (Z * account)) : gmap Z account :=
  foldl (λ m a, <[a.1 := a.2]> m) ∅ accs.

(** POST /api/wallets/<sender_id>/transfer, lines 106 to 131: the checks,
    ending with the balances read before the transaction. *)
Definition transfer_validate (sender_id receiver_id : Z) (amount : decimal)
    : M (decimal * account) :=
  if decide (receiver_id = sender_id) then
    raise (InputError (Msg "Account can not transfer to itself"))
  else
    small <- lift (PyDecimal.lt amount PyDecimal.float_0_0009) ;;
    if small : bool then
      raise (InputError (Msg "Negative amounts are not allowed"))
    else
      accs <- Sql.select_accounts sender_id receiver_id ;;
      let accounts := by_account_id accs in
      match accounts !! sender_id with
      | None => raise (AccountNotFoundError (Msg "Sender is missing account"))
      | Some sender =>
          match accounts !! receiver_id with
          | None => raise (AccountNotFoundError (Msg "Receiver is missing account"))
          | Some receiver =>
              let sender_amount := acc_amount sender in
              short <- lift (PyDecimal.gt amount sender_amount) ;;
              if short : bool then
                raise (ConditionError (NotEnoughFunds amount sender_amount))
              else ret (sender_amount, receiver)
          end
      end.

(** Lines 133 to 151: the three statements of the transaction. *)
Definition transfer_commit (sender_id receiver_id : Z) (amount : decimal)
    : M unit :=
  transaction (
    Sql.update_amount Numeric.sub amount sender_id ;;;
    Sql.update_amount Numeric.add amount receiver_id ;;;
    Sql.insert_transaction sender_id receiver_id amount ;;;
    ret tt).

(** Lines 153 to 156: the answer, from the values read before. *)
Definition transfer_respond (amount sender_amount : decimal) (receiver : account)
    : M transfer_response :=
  s <- lift (PyDecimal.sub sender_amount amount) ;;
  r <- lift (PyDecimal.add (acc_amount receiver) amount) ;;
  ret (TransferResponse s r).

Definition transfer (sender_id receiver_id : Z) (amount : decimal)
    : M transfer_response :=
  snapshot <- transfer_validate sender_id receiver_id amount ;;
  transfer_commit sender_id receiver_id amount ;;;
  transfer_respond amount snapshot.1 snapshot.2.

(** The common body of the two counter handlers. *)
Definition inc_steal (bump : wallet → wallet) (wallet_id : Z) : M bool :=
  transaction (
    res <- Sql.update_wallets bump wallet_id ;;
    t <- lift (Tag.unpack2 (String.words res)) ;;
    items <- lift (Tag.int t.2) ;;
    if decide (items ≠ 0%nat) then ret true else ret false).

(** SET steal_uses = steal_uses + 1 *)
Definition bump_uses (w : wallet) : wallet :=
  Wallet (user_id w) (taxpaid w) (steal_uses w + 1) (steal_success w).

(** SET steal_success = steal_success + 1 *)
Definition bump_success (w : wallet) : wallet :=
  Wallet (user_id w) (taxpaid w) (steal_uses w) (steal_success w + 1).

(** POST /api/wallets/<wallet_id>/steal_use *)
Definition inc_steal_use (wallet_id : Z) : M bool :=
  inc_steal bump_uses wallet_id.

(** POST /api/wallets/<wallet_id>/steal_success *)
Definition inc_steal_success (wallet_id : Z) : M bool :=
  inc_steal bump_success wallet_id.

Definition getsum (acc_type' : Z) : M (option decimal) :=
  Sql.select_sum_by_type acc_type'.

Definition get_gdp : M (option decimal) := Sql.select_sum.

Record sums : Type := Sums {
  gdp : option decimal;
  user : option decimal;
  taxbank : option decimal
}.

Definition get_sums : M sums :=
  total_amount <- get_gdp ;;
  user_amount <- getsum AccountType.USER ;;
  txb_amount <- getsum AccountType.TAXBANK ;;
  ret (Sums total_amount user_amount txb_amount).

(** The accounts table after the two updates of a transfer. *)
Definition moved (s r : Z) (a : decimal) (m : gmap Z account) : gmap Z account :=
  alter (λ x, Account (acc_type x) (Numeric.add (acc_amount x) a)) r
    (alter (λ x, Account (acc_type x) (Numeric.sub (acc_amount x) a)) s m).

(** A sequence of transfers, one after the other; it stops at the first
    one that raises. *)
Fixpoint transfers (l : list (Z * Z * decimal)) : M (list transfer_response) :=
  match l with
  | [] => ret []
  | (sender_id, receiver_id, amount) :: l' =>
      x <- transfer sender_id receiver_id amount ;;
      xs <- transfers l' ;;
      ret (x :: xs)
  end.

(* --------------------------------------------------------------------- *)
(*  Quantities the properties are stated with                            *)
(* --------------------------------------------------------------------- *)

(** The money supply: the sum, in the store's arithmetic, of the balances
    of the accounts that are not infinite. *)
Definition counted (a : account) (s : decimal) : decimal :=
  if is_infinite (acc_amount a) then s else Numeric.add (acc_amount a) s.

Definition supply_of (m : gmap Z account) : decimal :=
  map_fold (λ _ a s, counted a s) (dZ 0) m.

Definition supply (d : db) : decimal := supply_of (accounts d).

Definition balance (d : db) (account_id : Z) : option decimal :=
  acc_amount <$> accounts d !! account_id.

Definition infinite_balance (d : db) (account_id : Z) : bool :=
  match balance d account_id with
  | Some x => is_infinite x
  | None => false
  end.

(** A NULL sum read as zero. *)
Definition or_zero (s : option decimal) : decimal := default (dZ 0) s.

Definition succeeded {A} (r : result A) : bool :=
  match r with Ok _ => true | Raise _ => false end.

(** The exact minimum the transfer is meant to have, 9/10000. *)
Definition minimum_amount : decimal := dQ 9 10000.

(* --------------------------------------------------------------------- *)
(*  Concurrent requests                                                  *)
(* --------------------------------------------------------------------- *)

(** A transfer request in flight.  Its handler gives up control at its
    awaits: once for the read of the two accounts, once for the
    transaction, which the store runs as one unit.  Between the two, other
    requests run. *)
Inductive task : Type :=
  | Pending (sender_id receiver_id : Z) (amount : decimal)
  | Validated (sender_id receiver_id : Z) (amount : decimal)
      (sender_amount : decimal) (receiver : account)
  | Finished (r : result transfer_response).

Definition task_step (d : db) (t : task) : db * task :=
  match t with
  | Pending s r a =>
      match run (transfer_validate s r a) d with
      | (Ok snapshot, d') => (d', Validated s r a snapshot.1 snapshot.2)
      | (Raise e, d') => (d', Finished (Raise e))
      end
  | Validated s r a sender_amount receiver =>
      let '(res, d') :=
        run (transfer_commit s r a ;;; transfer_respond a sender_amount receiver) d
      in (d', Finished res)
  | Finished res => (d, Finished res)
  end.

Definition is_finished (t : task) : bool :=
  match t with Finished _ => true | _ => false end.

Record system : Type := System {
  sys_db : db;
  sys_tasks : list task
}.

(** One step of the server: some request that has not finished runs up to
    its next await. *)
Inductive sys_step : system → system → Prop :=
  | sys_step_task (σ : system) (i : nat) (t : task) :
      sys_tasks σ !! i = Some t →
      is_finished t = false →
      sys_step σ
        (System (task_step (sys_db σ) t).1
                (<[i := (task_step (sys_db σ) t).2]> (sys_tasks σ))).

(** The same, driven by an explicit schedule of request indices. *)
Definition sys_run_one (σ : system) (i : nat) : system :=
  match sys_tasks σ !! i with
  | Some t =>
      if is_finished t then σ
      else System (task_step (sys_db σ) t).1
                  (<[i := (task_step (sys_db σ) t).2]> (sys_tasks σ))
  | None => σ
  end.

Definition sys_run (schedule : list nat) (σ : system) : system :=
  foldl sys_run_one σ schedule.

(** The amount a request has still to debit. *)
Definition owed (t : task) : Qc :=
  match t with
  | Pending _ _ (Fin q) | Validated _ _ (Fin q) _ _ => q
  | _ => 0%Qc
  end.

Definition outstanding (ts : list task) : Qc :=
  foldr (λ t s, (owed t + s)%Qc) 0%Qc ts.

(** Requests of one sender, each for a finite amount that passes the
    minimum check. *)
Definition requests (sender_id : Z) (reqs : list (Z * Qc)) : list task :=
  (λ rq, Pending sender_id rq.1 (Fin rq.2)) <$> reqs.

Definition total_requested (reqs : list (Z * Qc)) : Qc :=
  foldr (λ rq s, (rq.2 + s)%Qc) 0%Qc reqs.

(* --------------------------------------------------------------------- *)
(*  Further quantities                                                   *)
(* --------------------------------------------------------------------- *)

(** Whether some wallet row is of the given user. *)
Definition has_wallet (d : db) (id : Z) : bool :=
  bool_decide (Exists (λ w, user_id w = id) (wallets d)).

(** The wallets table with [bump] applied to the rows of the given user. *)
Definition bumped (bump : wallet → wallet) (id : Z) (d : db) : db :=
  Db (accounts d)
     ((λ w, if decide (user_id w = id) then bump w else w) <$> wallets d)
     (transactions d).

(** A finite value with at most 28 significant digits: a coefficient
    below 10^28 in absolute value times a power of ten. *)
Definition fits_context (x : Qc) : Prop :=
  ∃ c z : Z,
    Z.abs c < 10 ^ PyDecimal.prec ∧
    (this x == inject_Z c * PyDecimal.pow10 z)%Q.

(* --------------------------------------------------------------------- *)
(*  Bookkeeping of concurrent debits                                     *)
(* --------------------------------------------------------------------- *)

(** What holds of each request while the requests of one sender run: it
    is a request of that sender to another, existing account for a finite
    amount that passes the minimum check, or it has finished without an
    error. *)
Definition good_task (sender_id : Z) (d : db) (t : task) : Prop :=
  match t with
  | Pending s r (Fin q) | Validated s r (Fin q) _ _ =>
      s = sender_id ∧ r ≠ sender_id ∧ is_Some (accounts d !! r) ∧
      PyDecimal.lt (Fin q) PyDecimal.float_0_0009 = Ok false
  | Finished (Ok _) => True
  | _ => False
  end.

(** The sender's balance is what the unfinished requests still owe. *)
Definition debit_invariant (sender_id : Z) (σ : system) : Prop :=
  balance (sys_db σ) sender_id = Some (Fin (outstanding (sys_tasks σ))) ∧
  Forall (good_task sender_id (sys_db σ)) (sys_tasks σ).

Definition no_error (t : task) : Prop :=
  match t with Finished (Raise _) => False | _ => True end.

(** The number of steps a request has still to take. *)
Definition steps_left (t : task) : nat :=
  match t with
  | Pending _ _ _ => 2
  | Validated _ _ _ _ _ => 1
  | Finished _ => 0
  end.

Definition remaining (ts : list task) : nat :=
  foldr (λ t n, (steps_left t + n)%nat) 0%nat ts.

Definition finished_ok (t : task) : Prop := ∃ resp, t = Finished (Ok resp).

(** Whether every index of a schedule names, at its turn, a request that
    has not finished. *)
Fixpoint schedule_live (schedule : list nat) (σ : system) : bool :=
  match schedule with
  | [] => true
  | i :: schedule' =>
      match sys_tasks σ !! i with
      | Some t => negb (is_finished t) && schedule_live schedule' (sys_run_one σ i)
      | None => false
      end
  end.

(* --------------------------------------------------------------------- *)
(*  Values and stores used in the examples                               *)
(* --------------------------------------------------------------------- *)

(** Two user accounts, the first seeded with 100. *)
Definition scenario_db : db :=
  Db (<[1 := Account AccountType.USER (dZ 100)]>
        (<[2 := Account AccountType.USER (dZ 0)]> ∅))
     [default_wallet 1; default_wallet 2] [].

(** A tax bank with an infinite balance and a user account at zero. *)
Definition bank_db : db :=
  Db (<[1 := Account AccountType.TAXBANK PInf]>
        (<[2 := Account AccountType.USER (dZ 0)]> ∅))
     [default_wallet 2] [].

(** The example store after an account of type 2 was created and paid 30
    by account 1. *)
Definition stray_type_db : db :=
  (run (create_account 3 2 ;;; transfer 1 3 (dZ 30)) scenario_db).2.

(** Two requests of 100 each against a balance of 100. *)
Definition overdraft_system : system :=
  System scenario_db [Pending 1 2 (dZ 100); Pending 1 2 (dZ 100)].

(** 0.00089999999999999999998, between the double nearest to 0.0009 and
    0.0009 itself. *)
Definition just_below_minimum : decimal :=
  dQ 89999999999999999998 (10 ^ 23).

(** 0.00090000000000000000000000000000000001, an amount of 35 significant
    digits. *)
Definition long_amount : decimal :=
  dQ 90000000000000000000000000000000001 (10 ^ 38).

(* --------------------------------------------------------------------- *)
(*  Statements that are examined as they are worded                      *)
(* --------------------------------------------------------------------- *)

(** Conservation over the non-infinite accounts, for every sequence of
    successful transfers on every store. *)
Definition conservation_over_all_stores : Prop :=
  ∀ (d : db) (l : list (Z * Z * decimal)) resps d',
    run (transfers l) d = (Ok resps, d') → supply d' = supply d.

(** The answer of a successful transfer as the exact difference and the
    exact sum. *)
Definition answer_is_exact : Prop :=
  ∀ (d : db) (s r : Z) (a : decimal) resp d' sender receiver,
    run (transfer s r a) d = (Ok resp, d') →
    accounts d !! s = Some sender →
    accounts d !! r = Some receiver →
    sender_amount resp = Numeric.sub (acc_amount sender) a ∧
    receiver_amount resp = Numeric.add (acc_amount receiver) a.

(** GDP as the sum of the two per-type sums, NULL read as zero, on every
    store. *)
Definition gdp_is_sum_of_types : Prop :=
  ∀ (d : db) (s : sums) (d' : db),
    run get_sums d = (Ok s, d') →
    or_zero (gdp s) = Numeric.add (or_zero (user s)) (or_zero (taxbank s)).

(** Requests of one sender to existing other accounts, each passing the
    minimum check, for amounts that sum to exactly the sender's finite
    balance.  Under every interleaving, after any number [n] of steps: the
    balance is not negative, no request has ended in an error, at most
    twice as many steps as requests were taken, the server can go on
    while fewer were, and once all were taken every request has succeeded
    and the balance is zero. *)
Definition concurrent_debits_ok : Prop :=
  ∀ (d : db) (sender_id : Z) (reqs : list (Z * Qc)) (n : nat) (σ : system),
    balance d sender_id = Some (Fin (total_requested reqs)) →
    Forall (λ rq, rq.1 ≠ sender_id ∧ is_Some (accounts d !! rq.1) ∧
                  PyDecimal.lt (Fin rq.2) PyDecimal.float_0_0009 = Ok false) reqs →
    nsteps sys_step n (System d (requests sender_id reqs)) σ →
    (∃ b, balance (sys_db σ) sender_id = Some (Fin b) ∧ (0 <= b)%Qc) ∧
    Forall no_error (sys_tasks σ) ∧
    (n ≤ 2 * length reqs)%nat ∧
    ((n < 2 * length reqs)%nat → ∃ σ', sys_step σ σ') ∧
    (n = (2 * length reqs)%nat →
     Forall finished_ok (sys_tasks σ) ∧
     balance (sys_db σ) sender_id = Some (dZ 0)).

(** Two requests of the same sender to the same receiver, each for the
    amount [q]. *)
Definition two_debits (d : db) (s r : Z) (q : Qc) : system :=
  System d [Pending s r (Fin q); Pending s r (Fin q)].

(** The first request runs to its end before the second starts. *)
Definition one_after_the_other : list nat := [0; 0; 1]%nat.

(** Both requests read the balance, then both run their transaction. *)
Definition read_read_update_update : list nat := [0; 1; 0; 1]%nat.

(* --------------------------------------------------------------------- *)
(*  Further statements and handlers of josecoin.py                       *)
(* --------------------------------------------------------------------- *)

Module SqlStats.

(** [SUM(col)] over an integer column: NULL over no rows. *)
Definition int_sum (l : list Z) : option Z :=
  match l with
  | [] => None
  | _ => Some (foldr Z.add 0 l)
  end.

(** SELECT COUNT( * ) FROM accounts WHERE account_type=$1 *)
Definition select_count_by_type (acc_type' : Z) : M nat :=
  statement (λ d,
    (Ok (length (filter (λ a, acc_type a = acc_type') (map_to_list (accounts d)).*2)),
     d)).

(** SELECT COUNT( * ) FROM accounts *)
Definition select_count : M nat :=
  statement (λ d, (Ok (length (map_to_list (accounts d)).*2), d)).

(** SELECT SUM(steal_uses) FROM wallets; *)
Definition select_sum_steal_uses : M (option Z) :=
  statement (λ d, (Ok (int_sum (steal_uses <$> wallets d)), d)).

(** SELECT SUM(steal_success) FROM wallets; *)
Definition select_sum_steal_success : M (option Z) :=
  statement (λ d, (Ok (int_sum (steal_success <$> wallets d)), d)).

End SqlStats.

Definition get_count (acc_type' : Z) : M nat :=
  SqlStats.select_count_by_type acc_type'.

Record counts : Type := Counts {
  count_accounts : nat;
  count_user_accounts : nat;
  count_txb_accounts : nat
}.

Definition get_counts : M counts :=
  count <- SqlStats.select_count ;;
  usercount <- get_count AccountType.USER ;;
  txbcount <- get_count AccountType.TAXBANK ;;
  ret (Counts count usercount txbcount).

(** GET /api/gdp *)
Definition get_gdp_handler : M sums := get_sums.

(** The flat record GET /api/stats answers. *)
Record stats : Type := Stats {
  stats_gdp : option decimal;
  stats_accounts : nat;
  stats_user_accounts : nat;
  stats_txb_accounts : nat;
  stats_user_money : option decimal;
  stats_txb_money : option decimal;
  stats_steals : option Z;
  stats_success : option Z
}.

(** GET /api/stats *)
Definition get_stats_handler : M stats :=
  gdp_data <- get_sums ;;
  cnt <- get_counts ;;
  steal_uses' <- SqlStats.select_sum_steal_uses ;;
  steal_success' <- SqlStats.select_sum_steal_success ;;
  ret (Stats (gdp gdp_data)
             (count_accounts cnt) (count_user_accounts cnt) (count_txb_accounts cnt)
             (user gdp_data) (taxbank gdp_data)
             steal_uses' steal_success').

(** A run of requests to the two counter endpoints of one wallet. *)
Inductive counter : Type := Uses | Success.

Definition inc_steal_counter (c : counter) (wallet_id : Z) : M bool :=
  match c with
  | Uses => inc_steal_use wallet_id
  | Success => inc_steal_success wallet_id
  end.

Fixpoint steal_requests (cs : list counter) (wallet_id : Z) : M (list bool) :=
  match cs with
  | [] => ret []
  | c :: cs' =>
      x <- inc_steal_counter c wallet_id ;;
      xs <- steal_requests cs' wallet_id ;;
      ret (x :: xs)
  end.

Definition same_counter (c c' : counter) : bool :=
  match c, c' with
  | Uses, Uses | Success, Success => true
  | _, _ => false
  end.

(** How many of the requests are for the counter [c]. *)
Fixpoint count_of (c : counter) (cs : list counter) : Z :=
  match cs with
  | [] => 0
  | c' :: cs' => (if same_counter c c' then 1 else 0) + count_of c cs'
  end.

(** Every balance is a finite, non-negative number. *)
Definition solvent (d : db) : Prop :=
  ∀ k a, accounts d !! k = Some a → ∃ q, acc_amount a = Fin q ∧ (0 <= q)%Qc.

(** No balance is infinite. *)
Definition no_infinite (d : db) : Prop :=
  ∀ k, infinite_balance d k = false.

(** The GDP that GET /api/gdp reports on a store that answers. *)
Definition reported_gdp (d : db) : option decimal :=
  match (run get_gdp_handler d).1 with
  | Ok s => gdp s
  | Raise _ => None
  end.

(** The wallets table with [u] added to [steal_uses] and [s] added to
    [steal_success] in the rows of the given user. *)
Definition bumped_by (u s : Z) (id : Z) (d : db) : db :=
  Db (accounts d)
     ((λ w, if decide (user_id w = id)
            then Wallet (user_id w) (taxpaid w) (steal_uses w + u) (steal_success w + s)
            else w) <$> wallets d)
     (transactions d).

(** The [SET] clause of each counter endpoint. *)
Definition bump_of (c : counter) : wallet → wallet :=
  match c with
  | Uses => bump_uses
  | Success => bump_success
  end.

(** A view with its amount replaced. *)
Definition with_amount (f : decimal → decimal) (v : account_view) : account_view :=
  AccountView (view_account_id v) (view_account_type v) (f (view_amount v))
              (view_wallet v).

(** A change applied to what a handler answers, errors left as they are. *)
Definition on_answer {A} (f : A → A) (r : result A) : result A :=
  match r with
  | Ok a => Ok (f a)
  | Raise e => Raise e
  end.

(** The counts GET /api/stats reports on a store that answers. *)
Definition reported_counts (d : db) : option counts :=
  match (run get_counts d).1 with
  | Ok c => Some c
  | Raise _ => None
  end.

(** The stats with the total of one counter raised by [n]. *)
Definition stats_raised (c : counter) (n : Z) (st : stats) : stats :=
  match c with
  | Uses =>
      Stats (stats_gdp st) (stats_accounts st) (stats_user_accounts st)
            (stats_txb_accounts st) (stats_user_money st) (stats_txb_money st)
            (Some (default 0 (stats_steals st) + n)) (stats_success st)
  | Success =>
      Stats (stats_gdp st) (stats_accounts st) (stats_user_accounts st)
            (stats_txb_accounts st) (stats_user_money st) (stats_txb_money st)
            (stats_steals st) (Some (default 0 (stats_success st) + n))
  end.

(** How many wallet rows are of the given user. *)
Definition wallet_rows (d : db) (id : Z) : nat :=
  length (filter (λ w, user_id w = id) (wallets d)).

(** Every balance is a finite number. *)
Definition all_finite (d : db) : Prop :=
  ∀ k a, accounts d !! k = Some a → ∃ q, acc_amount a = Fin q.

(** A request that is not between its checks and its transaction. *)
Definition not_validated (t : task) : Prop :=
  match t with
  | Validated _ _ _ _ _ => False
  | _ => True
  end.

(** What the checks have established of a request that waits for its
    transaction. *)
Definition sound_task (d : db) (t : task) : Prop :=
  match t with
  | Validated s r a _ _ =>
      r ≠ s ∧ (∃ q, a = Fin q) ∧
      is_Some (accounts d !! s) ∧ is_Some (accounts d !! r)
  | _ => True
  end.

Definition sound_system (σ : system) : Prop :=
  all_finite (sys_db σ) ∧ Forall (sound_task (sys_db σ)) (sys_tasks σ).

(** GET / answers a fixed text and GET /api/wallets/<wallet_id>/rank has
    an empty body; neither sends a statement to the store. *)
Definition index : M string := ret "oof".

Definition wallet_rank (wallet_id : Z) : M unit := ret tt.

(** The requests the server routes to a handler. *)
Inductive request : Type :=
  | Index
  | GetWallet (account_id : Z)
  | CreateAccount (account_id account_type : Z)
  | Transfer (sender_id receiver_id : Z) (amount : decimal)
  | StealUse (wallet_id : Z)
  | StealSuccess (wallet_id : Z)
  | WalletRank (wallet_id : Z)
  | GetGdp
  | GetStats.

(** The world a request leaves behind, whatever it answers. *)
Definition serve (req : request) (w : world) : world :=
  match req with
  | Index => (index w).2
  | GetWallet id => (get_wallet id w).2
  | CreateAccount id ty => (create_account id ty w).2
  | Transfer s r a => (transfer s r a w).2
  | StealUse id => (inc_steal_use id w).2
  | StealSuccess id => (inc_steal_success id w).2
  | WalletRank id => (wallet_rank id w).2
  | GetGdp => (get_gdp_handler w).2
  | GetStats => (get_stats_handler w).2
  end.

(** Requests served one after the other. *)
Definition serve_all (reqs : list request) (w : world) : world :=
  foldl (λ w req, serve req w) w reqs.

(** A handler that leaves the store as it found it, whatever the store
    fails. *)
Definition reads_only {A} (m : M A) : Prop :=
  ∀ w, store (m w).2 = store w.

(** What no request may undo: every account that was there is still
    there with its type, the log has only grown, and an account that was
    there has as many wallet rows as before. *)
Definition extends (d d' : db) : Prop :=
  (∀ k a, accounts d !! k = Some a →
     ∃ a', accounts d' !! k = Some a' ∧ acc_type a' = acc_type a) ∧
  transactions d `prefix_of` transactions d' ∧
  (∀ id, is_Some (accounts d !! id) → wallet_rows d' id = wallet_rows d id).

(* --------------------------------------------------------------------- *)
(*  Command statistics (ext/stats.py)                                    *)
(* --------------------------------------------------------------------- *)

Module Statistics.

(** The field values the cog reads and writes: integers and strings. *)
Inductive value : Type :=
  | Int (n : Z)
  | Str (s : string).

#[global] Instance value_eq_dec : EqDecision value.
Proof. solve_decision. Defined.

(** A document of the [command_stats] collection, and the collection in
    its natural order. *)
Definition doc : Type := gmap string value.
Definition collection : Type := list doc.

(** What the cog's commands can end with. *)
Inductive error : Type :=
  | WriteError                (* pymongo: $inc on a field that is not a number *)
  | KeyError (key : string)
  | SayException (msg : string).

Inductive outcome (A : Type) : Type :=
  | Done (a : A)
  | Failed (e : error).
Arguments Done {A} a.
Arguments Failed {A} e.

Definition empty_stats (c_name : string) : doc :=
  <["name" := Str c_name]> (<["uses" := Int 0]> ∅).

(** The filter [{'name': c_name}]. *)
Definition has_name (c_name : string) (d : doc) : Prop :=
  d !! "name" = Some (Str c_name).

#[global] Instance has_name_dec c_name d : Decision (has_name c_name d).
Proof. unfold has_name. apply _. Defined.

Definition find_one (c_name : string) (coll : collection) : option doc :=
  head (filter (has_name c_name) coll).

Definition insert_one (d : doc) (coll : collection) : collection :=
  coll ++ [d].

(** [{'$inc': {'uses': 1}}] on one document: a missing field is set to
    the increment. *)
Definition inc_uses (d : doc) : outcome doc :=
  match d !! "uses" with
  | None => Done (<["uses" := Int 1]> d)
  | Some (Int n) => Done (<["uses" := Int (n + 1)]> d)
  | Some (Str _) => Failed WriteError
  end.

(** [update_one]: the first document that matches is updated, none when
    none matches. *)
Fixpoint update_one (c_name : string) (coll : collection) : outcome collection :=
  match coll with
  | [] => Done []
  | d :: coll' =>
      if decide (has_name c_name d) then
        match inc_uses d with
        | Done d' => Done (d' :: coll')
        | Failed e => Failed e
        end
      else
        match update_one c_name coll' with
        | Done coll'' => Done (d :: coll'')
        | Failed e => Failed e
        end
  end.

(** The listener run after every command; [increment] has an empty
    body. *)
Definition on_command (c_name : string) (coll : collection) : outcome collection :=
  let stats := find_one c_name coll in
  let coll1 :=
    match stats with
    | None => insert_one (empty_stats c_name) coll
    | Some _ => coll
    end in
  update_one c_name coll1.

(** [str] of a field value inside an f-string. *)
Definition str (v : value) : string :=
  match v with
  | Int n => NilZero.string_of_int (Z.to_int n)
  | Str s => s
  end.

(** The [cstat] command, with the message it sends. *)
Definition command_stat (command : string) (coll : collection) : outcome string :=
  match find_one command coll with
  | None => Failed (SayException "Command not found")
  | Some stat =>
      match stat !! "uses" with
      | None => Failed (KeyError "uses")
      | Some uses => Done ("`" +:+ command +:+ ": " +:+ str uses +:+ " uses`")
      end
  end.

(** The listener after each command of a run of commands. *)
Fixpoint on_commands (c_names : list string) (coll : collection) : outcome collection :=
  match c_names with
  | [] => Done coll
  | c_name :: c_names' =>
      match on_command c_name coll with
      | Done coll' => on_commands c_names' coll'
      | Failed e => Failed e
      end
  end.

(** The uses recorded for a command: those of the first document of its
    name, none counting as zero. *)
Definition uses_of (c_name : string) (coll : collection) : Z :=
  match find_one c_name coll with
  | Some stat =>
      match stat !! "uses" with
      | Some (Int n) => n
      | _ => 0
      end
  | None => 0
  end.

(** Whether no document has a [uses] field that is not a number. *)
Definition countable_doc (d : doc) : bool :=
  match d !! "uses" with
  | Some (Str _) => false
  | _ => true
  end.

Definition countable (coll : collection) : bool := forallb countable_doc coll.

(** How often a name occurs in a run of commands. *)
Fixpoint times (c_name : string) (c_names : list string) : Z :=
  match c_names with
  | [] => 0
  | c :: c_names' => (if decide (c = c_name) then 1 else 0) + times c_name c_names'
  end.

End Statistics.

(** A command that has a document with a number of uses. *)
Definition recorded (c_name : string) (coll : Statistics.collection) : Prop :=
  ∃ d n, Statistics.find_one c_name coll = Some d ∧ d !! "uses" = Some (Statistics.Int n).

(** The message [cstat] sends for a command with [n] uses. *)
Definition uses_message (command : string) (n : Z) : string :=
  "`" +:+ command +:+ ": " +:+ Statistics.str (Statistics.Int n) +:+ " uses`".

(** A collection in which [ping] has been used four times. *)
Definition ping_stats : Statistics.collection :=
  [<["name" := Statistics.Str "ping"]> (<["uses" := Statistics.Int 4]> ∅)].

(** The [name] fields of a collection, document by document. *)
Definition names (coll : Statistics.collection) : list (option Statistics.value) :=
  (λ d : Statistics.doc, d !! "name") <$> coll.

(** The example collection after three commands. *)
Definition ping_stats_after : Statistics.collection :=
  match Statistics.on_commands ["ping"; "help"; "ping"] ping_stats with
  | Statistics.Done coll' => coll'
  | Statistics.Failed _ => []
  end.

(* ===================================================================== *)
(*  Properties                                                           *)
(* ===================================================================== *)

(* --------------------------------------------------------------------- *)
(*  The store's arithmetic                                               *)
(* --------------------------------------------------------------------- *)

Lemma numeric_add_comm (a b : decimal) : Numeric.add a b = Numeric.add b a.
Proof. destruct a, b; simpl; try reflexivity. f_equal. ring. Qed.

Lemma numeric_add_assoc (a b c : decimal) :
  Numeric.add a (Numeric.add b c) = Numeric.add (Numeric.add a b) c.
Proof. destruct a, b, c; simpl; try reflexivity. f_equal. ring. Qed.

Lemma numeric_add_zero_l (a : decimal) : Numeric.add (dZ 0) a = a.
Proof.
  destruct a; simpl; try reflexivity.
  f_equal. change (Q2Qc (inject_Z 0)) with 0%Qc. ring.
Qed.

Lemma numeric_add_zero_r (a : decimal) : Numeric.add a (dZ 0) = a.
Proof. rewrite numeric_add_comm. apply numeric_add_zero_l. Qed.

Lemma Qc_decimal_eq (x y : Qc) : (this x == this y)%Q → Fin x = Fin y.
Proof. intros H. f_equal. apply Qc_is_canon, H. Qed.

Lemma Fin_neq (x y : Qc) : ¬ (this x == this y)%Q → Fin x ≠ Fin y.
Proof. intros H [= ->]. apply H. reflexivity. Qed.

(* --------------------------------------------------------------------- *)
(*  The monad                                                            *)
(* --------------------------------------------------------------------- *)

Lemma bind_ok {A B} (m : M A) (k : A → M B) w a w' :
  m w = (Ok a, w') → bind m k w = k a w'.
Proof. intros H. unfold bind. rewrite H. reflexivity. Qed.

Lemma bind_raise {A B} (m : M A) (k : A → M B) w e w' :
  m w = (Raise e, w') → bind m k w = (Raise e, w').
Proof. intros H. unfold bind. rewrite H. reflexivity. Qed.

Lemma bind_inv_ok {A B} (m : M A) (k : A → M B) w b w' :
  bind m k w = (Ok b, w') → ∃ a w1, m w = (Ok a, w1) ∧ k a w1 = (Ok b, w').
Proof.
  unfold bind. destruct (m w) as [[a|e] w1]; [eauto | discriminate].
Qed.

(** A statement either fails without touching the store, or is its effect
    on the store; what the plan of failures was does not matter further. *)
Lemma statement_inv {A} (f : db → result A * db) w r w' :
  statement f w = (r, w') →
  (r = Raise StoreError ∧ store w' = store w) ∨ f (store w) = (r, store w').
Proof.
  unfold statement. destruct (faults w) as [|[] fs];
    destruct (f (store w)) as [r0 d0]; intros [= <- <-]; auto.
Qed.

Lemma statement_inv_ok {A} (f : db → result A * db) w a w' :
  statement f w = (Ok a, w') → f (store w) = (Ok a, store w').
Proof. intros H. apply statement_inv in H as [[? _]|H]; [discriminate | done]. Qed.

Lemma statement_no_fault {A} (f : db → result A * db) d :
  statement f (World d []) = ((f d).1, World (f d).2 []).
Proof. unfold statement. simpl. destruct (f d); reflexivity. Qed.

Lemma transaction_inv_ok {A} (body : M A) w a w' :
  transaction body w = (Ok a, w') → body w = (Ok a, w').
Proof.
  unfold transaction. destruct (body w) as [[a0|e] w1]; [done | discriminate].
Qed.

(** A transaction that raises leaves the store as it found it. *)
Lemma transaction_rollback {A} (body : M A) w e w' :
  transaction body w = (Raise e, w') → store w' = store w.
Proof.
  unfold transaction. destruct (body w) as [[a0|e0] w1]; [discriminate |].
  intros [= _ <-]. reflexivity.
Qed.

(* --------------------------------------------------------------------- *)
(*  Reading the two accounts of a transfer                               *)
(* --------------------------------------------------------------------- *)

Lemma foldl_insert_lookup (l : list (Z * account)) (m0 : gmap Z account) k v :
  NoDup l.*1 →
  foldl (λ m a, <[a.1 := a.2]> m) m0 l !! k = Some v ↔
  (k, v) ∈ l ∨ ((k ∉ l.*1) ∧ m0 !! k = Some v).
Proof.
  revert m0. induction l as [|[k' v'] l IH]; intros m0 Hnd; simpl.
  - split; [intros H; right; split; [apply not_elem_of_nil | done]
           | intros [H|[_ H]]; [by apply elem_of_nil in H | done]].
  - apply NoDup_cons in Hnd as [Hk' Hnd]. rewrite (IH _ Hnd).
    rewrite elem_of_cons, not_elem_of_cons. split.
    + intros [H|[Hk H]]; [by left; right |].
      destruct (decide (k' = k)) as [->|Hne].
      * rewrite lookup_insert_eq in H. injection H as ->. by left; left.
      * rewrite lookup_insert_ne in H by done. right. by repeat split.
    + intros [[[= -> ->]|H]|[[Hne Hk] H]].
      * right. split; [done | apply lookup_insert_eq].
      * by left.
      * right. split; [done |]. by rewrite lookup_insert_ne.
Qed.

Lemma by_account_id_select (m : gmap Z account) (id1 id2 k : Z) :
  by_account_id (filter (λ r, r.1 = id1 ∨ r.1 = id2) (map_to_list m)) !! k =
  if decide (k = id1 ∨ k = id2) then m !! k else None.
Proof.
  apply option_eq. intros v. unfold by_account_id.
  rewrite foldl_insert_lookup.
  - rewrite list_elem_of_filter, elem_of_map_to_list, lookup_empty. simpl.
    destruct (decide (k = id1 ∨ k = id2)) as [Hk|Hk]; split.
    + intros [[_ H]|[_ H]]; [done | discriminate].
    + intros H. left. done.
    + intros [[Hk' _]|[_ H]]; [done | discriminate].
    + discriminate.
  - apply (sublist_NoDup _ ((map_to_list m).*1)); [apply NoDup_fst_map_to_list |].
    apply fmap_sublist, sublist_filter.
Qed.

Lemma select_accounts_inv id1 id2 w accs w' :
  Sql.select_accounts id1 id2 w = (Ok accs, w') →
  store w' = store w ∧
  by_account_id accs !! id1 = accounts (store w) !! id1 ∧
  by_account_id accs !! id2 = accounts (store w) !! id2.
Proof.
  intros H. apply statement_inv_ok in H. injection H as <- <-.
  rewrite !by_account_id_select.
  rewrite !decide_True by auto. done.
Qed.

(* --------------------------------------------------------------------- *)
(*  The checks of a transfer                                             *)
(* --------------------------------------------------------------------- *)

(** The checks only read. *)
Lemma transfer_validate_reads s r a w res w' :
  transfer_validate s r a w = (res, w') → store w' = store w.
Proof.
  unfold transfer_validate. destruct (decide (r = s)).
  { intros [= _ <-]. reflexivity. }
  unfold bind at 1, lift at 1.
  destruct (PyDecimal.lt a PyDecimal.float_0_0009) as [[]|].
  1, 3: by intros [= _ <-].
  unfold bind at 1.
  destruct (Sql.select_accounts s r w) as [[accs|e] w1] eqn:Hsel.
  2: { intros [= _ <-]. apply statement_inv in Hsel as [[_ H]|H]; [done |].
       by injection H. }
  apply select_accounts_inv in Hsel as (Hst & _ & _).
  destruct (by_account_id accs !! s); [| by intros [= _ <-]].
  destruct (by_account_id accs !! r); [| by intros [= _ <-]].
  unfold bind, lift. destruct (PyDecimal.gt _ _) as [[]|]; by intros [= _ <-].
Qed.

(** What passing the checks says about the request and the store. *)
Lemma transfer_validate_ok s r a w snapshot w' :
  transfer_validate s r a w = (Ok snapshot, w') →
  r ≠ s ∧
  PyDecimal.lt a PyDecimal.float_0_0009 = Ok false ∧
  store w' = store w ∧
  ∃ sender receiver,
    accounts (store w) !! s = Some sender ∧
    accounts (store w) !! r = Some receiver ∧
    PyDecimal.gt a (acc_amount sender) = Ok false ∧
    snapshot = (acc_amount sender, receiver).
Proof.
  intros H. pose proof (transfer_validate_reads _ _ _ _ _ _ H) as Hst.
  revert H. unfold transfer_validate. destruct (decide (r = s)); [discriminate |].
  unfold bind at 1, lift at 1.
  destruct (PyDecimal.lt a PyDecimal.float_0_0009) as [[]|]; try discriminate.
  unfold bind at 1.
  destruct (Sql.select_accounts s r w) as [[accs|e] w1] eqn:Hsel; [| discriminate].
  apply select_accounts_inv in Hsel as (_ & Hs & Hr).
  rewrite Hs, Hr.
  destruct (accounts (store w) !! s) as [sender|]; [| discriminate].
  destruct (accounts (store w) !! r) as [receiver|]; [| discriminate].
  unfold bind, lift.
  destruct (PyDecimal.gt a (acc_amount sender)) as [[]|] eqn:Hgt; try discriminate.
  intros [= <- _]. repeat split; try done. eauto 10.
Qed.

(** The checks on a store that does not fail, with both accounts there. *)
Lemma transfer_validate_run s r a d sender receiver :
  r ≠ s →
  PyDecimal.lt a PyDecimal.float_0_0009 = Ok false →
  accounts d !! s = Some sender →
  accounts d !! r = Some receiver →
  transfer_validate s r a (World d []) =
    (match PyDecimal.gt a (acc_amount sender) with
     | Ok true => Raise (ConditionError (NotEnoughFunds a (acc_amount sender)))
     | Ok false => Ok (acc_amount sender, receiver)
     | Raise e => Raise e
     end, World d []).
Proof.
  intros Hne Hlt Hs Hr. unfold transfer_validate.
  rewrite decide_False by done.
  unfold bind at 1, lift at 1. rewrite Hlt.
  unfold bind at 1, Sql.select_accounts. rewrite statement_no_fault. simpl.
  rewrite !by_account_id_select, !decide_True by auto. rewrite Hs, Hr.
  unfold bind, lift. destruct (PyDecimal.gt a (acc_amount sender)) as [[]|]; done.
Qed.

(* --------------------------------------------------------------------- *)
(*  The transaction of a transfer                                        *)
(* --------------------------------------------------------------------- *)

Lemma transfer_commit_ok s r a w u w' :
  transfer_commit s r a w = (Ok u, w') →
  store w' = Db (moved s r a (accounts (store w)))
                (wallets (store w))
                (transactions (store w) ++ [Tx s r a]).
Proof.
  intros H. apply transaction_inv_ok in H.
  apply bind_inv_ok in H as (t1 & w1 & H1 & H).
  apply bind_inv_ok in H as (t2 & w2 & H2 & H).
  apply bind_inv_ok in H as (t3 & w3 & H3 & H).
  injection H as _ <-.
  apply statement_inv_ok in H1, H2, H3.
  injection H1 as _ H1. injection H2 as _ H2. injection H3 as _ H3.
  rewrite <- H3, <- H2, <- H1. reflexivity.
Qed.

(** All three statements, or none of them. *)
Lemma transfer_commit_atomic s r a w res w' :
  transfer_commit s r a w = (res, w') →
  store w' = store w ∨
  store w' = Db (moved s r a (accounts (store w)))
                (wallets (store w))
                (transactions (store w) ++ [Tx s r a]).
Proof.
  destruct res as [u|e]; intros H.
  - right. eapply transfer_commit_ok, H.
  - left. eapply transaction_rollback, H.
Qed.

Lemma transfer_commit_run s r a d :
  transfer_commit s r a (World d []) =
    (Ok tt,
     World (Db (moved s r a (accounts d)) (wallets d) (transactions d ++ [Tx s r a])) []).
Proof. reflexivity. Qed.

Lemma transfer_respond_inv a sa ra w res w' :
  transfer_respond a sa ra w = (res, w') →
  w' = w ∧
  res = match PyDecimal.sub sa a, PyDecimal.add (acc_amount ra) a with
        | Ok x, Ok y => Ok (TransferResponse x y)
        | Raise e, _ | Ok _, Raise e => Raise e
        end.
Proof.
  unfold transfer_respond, bind, lift, ret.
  destruct (PyDecimal.sub sa a); [destruct (PyDecimal.add (acc_amount ra) a) |];
    intros [= <- <-]; done.
Qed.

(** What a successful transfer says about the store before and after, and
    about its answer. *)
Lemma transfer_ok s r a w resp w' :
  transfer s r a w = (Ok resp, w') →
  r ≠ s ∧
  PyDecimal.lt a PyDecimal.float_0_0009 = Ok false ∧
  ∃ sender receiver,
    accounts (store w) !! s = Some sender ∧
    accounts (store w) !! r = Some receiver ∧
    PyDecimal.gt a (acc_amount sender) = Ok false ∧
    PyDecimal.sub (acc_amount sender) a = Ok (sender_amount resp) ∧
    PyDecimal.add (acc_amount receiver) a = Ok (receiver_amount resp) ∧
    store w' = Db (moved s r a (accounts (store w)))
                  (wallets (store w))
                  (transactions (store w) ++ [Tx s r a]).
Proof.
  intros H. unfold transfer in H.
  apply bind_inv_ok in H as (snapshot & w1 & Hv & H).
  apply bind_inv_ok in H as (u & w2 & Hc & H).
  apply transfer_validate_ok in Hv as (Hne & Hlt & Hst & sender & receiver & Hs & Hr & Hgt & ->).
  apply transfer_commit_ok in Hc. rewrite Hst in Hc.
  apply transfer_respond_inv in H as [<- H]. simpl in H.
  destruct (PyDecimal.sub (acc_amount sender) a) as [x|] eqn:Hx; [| discriminate].
  destruct (PyDecimal.add (acc_amount receiver) a) as [y|] eqn:Hy; [| discriminate].
  injection H as ->. simpl.
  split; [done |]. split; [done |]. exists sender, receiver. auto 10.
Qed.

(* --------------------------------------------------------------------- *)
(*  Rejected transfers                                                   *)
(* --------------------------------------------------------------------- *)

(** C3. A transfer from an account to itself raises InputError, whatever
    the amount, whether or not the account exists, and whatever the store
    would do; the world (store included) is left as it was. *)
Theorem transfer_to_self_rejected (x : Z) (amount : decimal) (w : world) :
  transfer x x amount w =
    (Raise (InputError (Msg "Account can not transfer to itself")), w).
Proof.
  unfold transfer, bind, transfer_validate.
  rewrite decide_True by reflexivity. reflexivity.
Qed.

(** C2. With distinct accounts that both exist and an amount that passes
    the minimum check, an amount greater than the sender's balance makes
    the transfer raise ConditionError with both compared values, and the
    store (so both balances) is unchanged. *)
Theorem transfer_insufficient_funds
    (d : db) (sender_id receiver_id : Z) (amount : decimal)
    (sender receiver : account) :
  receiver_id ≠ sender_id →
  PyDecimal.lt amount PyDecimal.float_0_0009 = Ok false →
  accounts d !! sender_id = Some sender →
  accounts d !! receiver_id = Some receiver →
  PyDecimal.gt amount (acc_amount sender) = Ok true →
  run (transfer sender_id receiver_id amount) d =
    (Raise (ConditionError (NotEnoughFunds amount (acc_amount sender))), d).
Proof.
  intros Hne Hlt Hs Hr Hgt. unfold run, transfer.
  pose proof (transfer_validate_run _ _ _ _ _ _ Hne Hlt Hs Hr) as Hv.
  rewrite Hgt in Hv. rewrite (bind_raise _ _ _ _ _ Hv). reflexivity.
Qed.

Lemma transfer_insufficient_funds_witness :
  run (transfer 1 2 (dZ 1000)) scenario_db =
    (Raise (ConditionError (NotEnoughFunds (dZ 1000) (dZ 100))), scenario_db).
Proof.
  apply (transfer_insufficient_funds scenario_db 1 2 (dZ 1000)
           (Account AccountType.USER (dZ 100)) (Account AccountType.USER (dZ 0)));
    [lia | reflexivity | reflexivity | reflexivity | reflexivity].
Defined.

(* --------------------------------------------------------------------- *)
(*  The money supply                                                     *)
(* --------------------------------------------------------------------- *)

Lemma counted_comm (a b : account) (s : decimal) :
  counted a (counted b s) = counted b (counted a s).
Proof.
  unfold counted.
  destruct (is_infinite (acc_amount a)), (is_infinite (acc_amount b)); try reflexivity.
  rewrite !numeric_add_assoc. f_equal. apply numeric_add_comm.
Qed.

Lemma supply_of_delete (m : gmap Z account) (k : Z) (a : account) :
  m !! k = Some a → supply_of m = counted a (supply_of (delete k m)).
Proof.
  intros H. unfold supply_of.
  apply (map_fold_delete_L (λ _ a s, counted a s)); [| done].
  intros. apply counted_comm.
Qed.

Lemma moved_lookup_sender s r a m :
  r ≠ s →
  moved s r a m !! s =
    (λ x, Account (acc_type x) (Numeric.sub (acc_amount x) a)) <$> m !! s.
Proof.
  intros Hne. unfold moved.
  rewrite lookup_alter_ne by done. apply lookup_alter_eq.
Qed.

Lemma moved_lookup_receiver s r a m :
  r ≠ s →
  moved s r a m !! r =
    (λ x, Account (acc_type x) (Numeric.add (acc_amount x) a)) <$> m !! r.
Proof.
  intros Hne. unfold moved.
  rewrite lookup_alter_eq, lookup_alter_ne by done. reflexivity.
Qed.

Lemma moved_lookup_other s r a m k :
  k ≠ s → k ≠ r → moved s r a m !! k = m !! k.
Proof.
  intros Hs Hr. unfold moved. rewrite !lookup_alter_ne by done. reflexivity.
Qed.

Lemma moved_delete s r a m :
  delete r (delete s (moved s r a m)) = delete r (delete s m).
Proof.
  apply map_eq. intros k.
  destruct (decide (k = r)) as [->|Hr]; [by rewrite !lookup_delete_eq |].
  rewrite !(lookup_delete_ne _ r k) by done.
  destruct (decide (k = s)) as [->|Hs]; [by rewrite !lookup_delete_eq |].
  rewrite !(lookup_delete_ne _ s k) by done.
  by apply moved_lookup_other.
Qed.

(** An amount that passes both checks against a finite balance is
    finite. *)
Lemma checked_amount_finite (a : decimal) (x : Qc) :
  PyDecimal.lt a PyDecimal.float_0_0009 = Ok false →
  PyDecimal.gt a (Fin x) = Ok false →
  ∃ q, a = Fin q.
Proof. destruct a; try discriminate. eauto. Qed.

(** A sender that is not infinite and passes the funds check is finite. *)
Lemma checked_sender_finite (a b : decimal) :
  PyDecimal.gt a b = Ok false → is_infinite b = false → ∃ x, b = Fin x.
Proof. destruct b; try discriminate; [eauto |]. destruct a; discriminate. Qed.

(** Moving a finite amount between two accounts that are not infinite
    leaves the supply as it was. *)
Lemma moved_supply s r (q x : Qc) m tys receiver :
  r ≠ s →
  m !! s = Some (Account tys (Fin x)) →
  m !! r = Some receiver →
  is_infinite (acc_amount receiver) = false →
  supply_of (moved s r (Fin q) m) = supply_of m.
Proof.
  intros Hne Hs Hr Hfin.
  rewrite (supply_of_delete m s _ Hs).
  rewrite (supply_of_delete (delete s m) r receiver)
    by (by rewrite lookup_delete_ne).
  erewrite (supply_of_delete (moved s r (Fin q) m) s);
    [| by rewrite moved_lookup_sender, Hs].
  erewrite (supply_of_delete (delete s (moved s r (Fin q) m)) r);
    [| by rewrite lookup_delete_ne, moved_lookup_receiver, Hr].
  rewrite moved_delete.
  generalize (supply_of (delete r (delete s m))). intros rest.
  destruct receiver as [tyr [y| | |]]; try discriminate;
    unfold counted; simpl; destruct rest; simpl; try reflexivity.
  f_equal. ring.
Qed.

Lemma run_inv {A} (m : M A) d r d' :
  run m d = (r, d') → ∃ w', m (World d []) = (r, w') ∧ store w' = d'.
Proof.
  unfold run. destruct (m (World d [])) as [r0 w0]. intros [= <- <-]. eauto.
Qed.

(** One successful transfer between accounts that are not infinite: the
    supply is unchanged, and so is which accounts are infinite. *)
Lemma transfer_conserves s r a w resp w' :
  transfer s r a w = (Ok resp, w') →
  infinite_balance (store w) s = false →
  infinite_balance (store w) r = false →
  supply (store w') = supply (store w) ∧
  ∀ k, infinite_balance (store w') k = infinite_balance (store w) k.
Proof.
  intros H Hs Hr.
  apply transfer_ok in H
    as (Hne & Hlt & sender & receiver & Hsl & Hrl & Hgt & _ & _ & ->).
  unfold infinite_balance, balance in Hs, Hr. rewrite Hsl in Hs. rewrite Hrl in Hr.
  simpl in Hs, Hr.
  destruct (checked_sender_finite _ _ Hgt Hs) as [x Hx].
  destruct sender as [tys sa]. simpl in Hx. subst sa.
  destruct (checked_amount_finite _ _ Hlt Hgt) as [q ->].
  split.
  - unfold supply. simpl. eapply moved_supply; eauto.
  - intros k. unfold infinite_balance, balance. simpl.
    destruct (decide (k = s)) as [->|Hks].
    { rewrite moved_lookup_sender, Hsl by done. reflexivity. }
    destruct (decide (k = r)) as [->|Hkr].
    { rewrite moved_lookup_receiver, Hrl by done. simpl.
      destruct (acc_amount receiver); done. }
    by rewrite moved_lookup_other.
Qed.

Lemma transfers_cons_inv s r a l w resps w' :
  transfers ((s, r, a) :: l) w = (Ok resps, w') →
  ∃ x w1 xs,
    transfer s r a w = (Ok x, w1) ∧ transfers l w1 = (Ok xs, w') ∧ resps = x :: xs.
Proof.
  simpl. intros H.
  apply bind_inv_ok in H as (x & w1 & H1 & H).
  apply bind_inv_ok in H as (xs & w2 & H2 & H).
  injection H as <- <-. eauto 10.
Qed.

(** A successful transfer takes exactly the amount from the sender, adds
    exactly the amount to the receiver and leaves every other balance. *)
Lemma transfer_moves_exactly s r a w resp w' :
  transfer s r a w = (Ok resp, w') →
  balance (store w') s = (λ b, Numeric.sub b a) <$> balance (store w) s ∧
  balance (store w') r = (λ b, Numeric.add b a) <$> balance (store w) r ∧
  ∀ k, k ≠ s → k ≠ r → balance (store w') k = balance (store w) k.
Proof.
  intros H.
  apply transfer_ok in H as (Hne & _ & sender & receiver & Hs & Hr & _ & _ & _ & ->).
  unfold balance. simpl. repeat split.
  - rewrite moved_lookup_sender, Hs by done. reflexivity.
  - rewrite moved_lookup_receiver, Hr by done. reflexivity.
  - intros k Hks Hkr. by rewrite moved_lookup_other.
Qed.

(** C1, as amended.  For every sequence of successful transfers whose
    senders and receivers do not hold an infinite balance, the sum of the
    balances of the non-infinite accounts is the same before and after,
    whatever the store does in between; and each successful transfer
    debits the sender by exactly the amount, credits the receiver by
    exactly the amount and leaves every other balance as it was. *)
Theorem transfers_conserve_supply :
  (∀ (l : list (Z * Z * decimal)) (w : world)
     (resps : list transfer_response) (w' : world),
     (∀ s r a, (s, r, a) ∈ l →
        infinite_balance (store w) s = false ∧
        infinite_balance (store w) r = false) →
     transfers l w = (Ok resps, w') →
     supply (store w') = supply (store w)) ∧
  (∀ (s r : Z) (a : decimal) (w : world) resp (w' : world),
     transfer s r a w = (Ok resp, w') →
     balance (store w') s = (λ b, Numeric.sub b a) <$> balance (store w) s ∧
     balance (store w') r = (λ b, Numeric.add b a) <$> balance (store w) r ∧
     ∀ k, k ≠ s → k ≠ r → balance (store w') k = balance (store w) k).
Proof.
  split; [| exact transfer_moves_exactly].
  intros l. induction l as [|[[s r] a] l IH]; intros w resps w' Hfin H.
  - injection H as _ <-. reflexivity.
  - apply transfers_cons_inv in H as (x & w1 & xs & H1 & H2 & _).
    destruct (Hfin s r a) as [Hs Hr]; [by left |].
    destruct (transfer_conserves _ _ _ _ _ _ H1 Hs Hr) as [Hsup Hinf].
    rewrite <- Hsup. apply (IH w1 xs); [| done].
    intros s' r' a' Hin. rewrite !Hinf. apply (Hfin s' r' a'). by right.
Qed.

Lemma transfers_conserve_supply_witness :
  supply (store (transfers [(1, 2, dZ 30); (2, 1, dZ 5)] (World scenario_db [])).2) =
  supply scenario_db.
Proof.
  apply (proj1 transfers_conserve_supply [(1, 2, dZ 30); (2, 1, dZ 5)]
           (World scenario_db [])
           (match (transfers [(1, 2, dZ 30); (2, 1, dZ 5)] (World scenario_db [])).1 with
            | Ok resps => resps
            | Raise _ => []
            end)).
  - intros s r a Hin.
    apply elem_of_cons in Hin as [[= -> -> ->]|Hin]; [split; reflexivity |].
    apply elem_of_cons in Hin as [[= -> -> ->]|Hin]; [split; reflexivity |].
    by apply elem_of_nil in Hin.
  - vm_compute. reflexivity.
Defined.

(** C1, as worded, fails: a transfer out of an account with an infinite
    balance succeeds, leaves that balance infinite and credits the
    receiver, so the sum over the non-infinite accounts grows. *)
Lemma conservation_fails_with_infinite_sender : ¬ conservation_over_all_stores.
Proof.
  intros Hclaim.
  destruct (run (transfers [(1, 2, dZ 30)]) bank_db) as [[resps|e] d'] eqn:E.
  - specialize (Hclaim _ _ _ _ E).
    assert (d' = (run (transfers [(1, 2, dZ 30)]) bank_db).2) as -> by (by rewrite E).
    vm_compute in Hclaim. discriminate Hclaim.
  - assert (succeeded (run (transfers [(1, 2, dZ 30)]) bank_db).1 = true)
      as Hok by (vm_compute; reflexivity).
    rewrite E in Hok. discriminate Hok.
Qed.

(* --------------------------------------------------------------------- *)
(*  The minimum amount                                                   *)
(* --------------------------------------------------------------------- *)

(** The transfer on a store that does not fail, when every check passes. *)
Lemma transfer_run d s r a sender receiver x y :
  r ≠ s →
  PyDecimal.lt a PyDecimal.float_0_0009 = Ok false →
  accounts d !! s = Some sender →
  accounts d !! r = Some receiver →
  PyDecimal.gt a (acc_amount sender) = Ok false →
  PyDecimal.sub (acc_amount sender) a = Ok x →
  PyDecimal.add (acc_amount receiver) a = Ok y →
  transfer s r a (World d []) =
    (Ok (TransferResponse x y),
     World (Db (moved s r a (accounts d)) (wallets d) (transactions d ++ [Tx s r a])) []).
Proof.
  intros Hne Hlt Hs Hr Hgt Hx Hy. unfold transfer.
  pose proof (transfer_validate_run _ _ _ _ _ _ Hne Hlt Hs Hr) as Hv.
  rewrite Hgt in Hv. rewrite (bind_ok _ _ _ _ _ Hv).
  rewrite (bind_ok _ _ _ _ _ (transfer_commit_run s r a d)).
  unfold transfer_respond, bind, lift, ret. simpl. rewrite Hx, Hy. reflexivity.
Qed.

(** Adding or subtracting a finite amount never signals. *)
Lemma py_add_finite_ok (b : decimal) (q : Qc) :
  ∃ y, PyDecimal.add b (Fin q) = Ok y.
Proof. destruct b; simpl; eauto. Qed.

Lemma py_sub_finite_ok (b : decimal) (q : Qc) :
  ∃ y, PyDecimal.sub b (Fin q) = Ok y.
Proof. apply py_add_finite_ok. Qed.

(** Below the double nearest to 0.0009 the transfer is refused. *)
Lemma transfer_below_float_rejected s r a w :
  r ≠ s →
  PyDecimal.lt a PyDecimal.float_0_0009 = Ok true →
  transfer s r a w =
    (Raise (InputError (Msg "Negative amounts are not allowed")), w).
Proof.
  intros Hne Hlt. unfold transfer, bind, transfer_validate.
  rewrite decide_False by done. unfold bind, lift. rewrite Hlt. reflexivity.
Qed.

(** 0.0005 and everything negative are below it. *)
Lemma small_amounts_below_float (q : Qc) :
  (q <= Q2Qc (5 # 10000))%Qc →
  PyDecimal.lt (Fin q) PyDecimal.float_0_0009 = Ok true.
Proof.
  intros Hq.
  assert (q < Q2Qc (8301034833169298 # 2 ^ 63))%Qc as Hlt.
  { eapply Qcle_lt_trans; [exact Hq |]. reflexivity. }
  apply Qclt_alt in Hlt.
  change ((q ?= Q2Qc (8301034833169298 # 2 ^ 63))%Qc = Lt) in Hlt.
  unfold PyDecimal.lt, PyDecimal.float_0_0009, dQ, PyDecimal.cmp, PyDecimal.is_nan.
  cbn [orb]. rewrite Hlt. reflexivity.
Qed.

(** Exactly 0.0009 is accepted when the funds suffice. *)
Lemma transfer_minimum_accepted d s r sender receiver :
  r ≠ s →
  accounts d !! s = Some sender →
  accounts d !! r = Some receiver →
  PyDecimal.gt minimum_amount (acc_amount sender) = Ok false →
  succeeded (run (transfer s r minimum_amount) d).1 = true.
Proof.
  intros Hne Hs Hr Hgt.
  destruct (py_sub_finite_ok (acc_amount sender) (Q2Qc (9 # 10000))) as [x Hx].
  destruct (py_add_finite_ok (acc_amount receiver) (Q2Qc (9 # 10000))) as [y Hy].
  unfold run.
  rewrite (transfer_run d s r minimum_amount sender receiver x y); auto.
Qed.

(** C4. The check against the float literal lets through an amount that
    is less than 0.0009: 0.00089999999999999999998 is transferred from
    account 1 to account 2 of the example store instead of being refused
    with InputError. *)
Theorem transfer_accepts_below_minimum :
  PyDecimal.lt just_below_minimum minimum_amount = Ok true ∧
  succeeded (run (transfer 1 2 just_below_minimum) scenario_db).1 = true ∧
  balance (run (transfer 1 2 just_below_minimum) scenario_db).2 2 =
    Some just_below_minimum.
Proof.
  split; [reflexivity |]. split; [vm_compute; reflexivity |].
  vm_compute. do 2 f_equal. apply Qc_is_canon. reflexivity.
Qed.

(* --------------------------------------------------------------------- *)
(*  The answer of a transfer                                             *)
(* --------------------------------------------------------------------- *)

(** On finite values the handler's subtraction and addition are the exact
    ones followed by the rounding of the decimal context. *)
Lemma py_sub_finite (x q : Qc) :
  PyDecimal.sub (Fin x) (Fin q) = Ok (Fin (PyDecimal.ctx_fix (x + - q)%Qc)).
Proof. reflexivity. Qed.

Lemma py_add_finite (y q : Qc) :
  PyDecimal.add (Fin y) (Fin q) = Ok (Fin (PyDecimal.ctx_fix (y + q)%Qc)).
Proof. reflexivity. Qed.

(* --------------------------------------------------------------------- *)
(*  The rounding of the decimal context                                  *)
(* --------------------------------------------------------------------- *)

Lemma digits_upto_spec (fuel : nat) (n : Z) :
  0 < n → n < 10 ^ Z.of_nat fuel →
  1 <= PyDecimal.digits_upto fuel n ∧
  10 ^ (PyDecimal.digits_upto fuel n - 1) <= n < 10 ^ PyDecimal.digits_upto fuel n.
Proof.
  revert n. induction fuel as [|fuel IH]; intros n Hpos Hlt.
  { simpl in Hlt. lia. }
  cbn [PyDecimal.digits_upto]. destruct (Z.ltb_spec n 10) as [Hn|Hn].
  - split; [lia |]. simpl. lia.
  - assert (0 < n / 10) as Hq by (apply Z.div_str_pos; lia).
    assert (n / 10 < 10 ^ Z.of_nat fuel) as Hq'.
    { apply Z.div_lt_upper_bound; [lia |].
      rewrite Nat2Z.inj_succ, Z.pow_succ_r in Hlt by lia. lia. }
    destruct (IH _ Hq Hq') as (Hk & Hlo & Hhi).
    set (k := PyDecimal.digits_upto fuel (n / 10)) in *.
    split; [lia |].
    replace (1 + k - 1) with (Z.succ (k - 1)) by lia.
    replace (1 + k) with (Z.succ k) by lia.
    rewrite !Z.pow_succ_r by lia.
    pose proof (Z.div_mod n 10 ltac:(lia)) as Hdm.
    pose proof (Z.mod_pos_bound n 10 ltac:(lia)) as Hmod.
    lia.
Qed.

Lemma digits_spec (p : positive) :
  1 <= PyDecimal.digits p ∧ 10 ^ (PyDecimal.digits p - 1) <= Z.pos p < 10 ^ PyDecimal.digits p.
Proof.
  unfold PyDecimal.digits. apply digits_upto_spec; [lia |].
  pose proof (Z.log2_spec (Z.pos p) ltac:(lia)) as [_ Hhi].
  pose proof (Z.log2_nonneg (Z.pos p)) as Hnn.
  rewrite Nat2Z.inj_succ, Z2Nat.id by lia.
  eapply Z.lt_le_trans; [exact Hhi |].
  apply Z.pow_le_mono_l. lia.
Qed.

Local Open Scope Q_scope.

Lemma ten_not_zero : ¬ inject_Z 10 == 0.
Proof. discriminate. Qed.

Lemma pow10_pos (k : Z) : 0 < PyDecimal.pow10 k.
Proof. apply Qpower_0_lt. reflexivity. Qed.

Lemma pow10_add (a b : Z) : PyDecimal.pow10 (a + b) == PyDecimal.pow10 a * PyDecimal.pow10 b.
Proof. apply Qpower_plus, ten_not_zero. Qed.

Lemma pow10_le (a b : Z) : (a <= b)%Z → PyDecimal.pow10 a <= PyDecimal.pow10 b.
Proof. intros H. apply Qpower_le_compat_l; [exact H | discriminate]. Qed.

Lemma pow10_lt_inv (a b : Z) : PyDecimal.pow10 a < PyDecimal.pow10 b → (a < b)%Z.
Proof. intros H. eapply Qpower_lt_compat_l_inv; [exact H | reflexivity]. Qed.

Lemma pow10_Z (k : Z) : (0 <= k)%Z → PyDecimal.pow10 k == inject_Z (10 ^ k).
Proof. intros H. symmetry. apply Zpower_Qpower, H. Qed.

Lemma pow10_cancel (a : Z) : PyDecimal.pow10 a * PyDecimal.pow10 (- a) == 1.
Proof. rewrite <- pow10_add, Z.add_opp_diag_r. reflexivity. Qed.

Lemma Zpos_over (n d : positive) : (Z.pos n # d) * inject_Z (Z.pos d) == inject_Z (Z.pos n).
Proof. unfold Qeq, Qmult, inject_Z. simpl. lia. Qed.

(** The exponent found is not above the true one. *)
Lemma adjusted_le (n d : positive) : PyDecimal.pow10 (PyDecimal.adjusted n d) <= Z.pos n # d.
Proof.
  unfold PyDecimal.adjusted.
  destruct (Qle_bool (PyDecimal.pow10 (PyDecimal.digits n - PyDecimal.digits d)) (Z.pos n # d)) eqn:E.
  { by apply Qle_bool_iff. }
  destruct (digits_spec n) as (Hn1 & Hnlo & _).
  destruct (digits_spec d) as (Hd1 & _ & Hdhi).
  apply (Qmult_le_r _ _ (inject_Z (Z.pos d))); [reflexivity |].
  rewrite Zpos_over.
  apply Qle_trans with (PyDecimal.pow10 (PyDecimal.digits n - PyDecimal.digits d - 1) * PyDecimal.pow10 (PyDecimal.digits d)).
  - apply Qmult_le_l; [apply pow10_pos |].
    rewrite pow10_Z by lia. rewrite <- Zle_Qle. lia.
  - rewrite <- pow10_add.
    replace (PyDecimal.digits n - PyDecimal.digits d - 1 + PyDecimal.digits d)%Z with (PyDecimal.digits n - 1)%Z by lia.
    rewrite pow10_Z by lia. by rewrite <- Zle_Qle.
Qed.

(** Nor is it below the true one. *)
Lemma adjusted_lt (n d : positive) :
  Z.pos n # d < PyDecimal.pow10 (PyDecimal.adjusted n d + 1).
Proof.
  destruct (digits_spec n) as (Hn1 & _ & Hnhi).
  destruct (digits_spec d) as (Hd1 & Hdlo & _).
  assert (Z.pos n # d < PyDecimal.pow10 (PyDecimal.digits n - PyDecimal.digits d + 1))
    as Hup.
  { apply (Qmult_lt_r _ _ (inject_Z (Z.pos d))); [reflexivity |].
    rewrite Zpos_over.
    apply Qlt_le_trans
      with (PyDecimal.pow10 (PyDecimal.digits n - PyDecimal.digits d + 1) *
            PyDecimal.pow10 (PyDecimal.digits d - 1)).
    - rewrite <- pow10_add.
      replace (PyDecimal.digits n - PyDecimal.digits d + 1 + (PyDecimal.digits d - 1))%Z
        with (PyDecimal.digits n) by lia.
      rewrite pow10_Z by lia. by rewrite <- Zlt_Qlt.
    - apply Qmult_le_l; [apply pow10_pos |].
      rewrite pow10_Z by lia. by rewrite <- Zle_Qle. }
  unfold PyDecimal.adjusted.
  destruct (Qle_bool (PyDecimal.pow10 (PyDecimal.digits n - PyDecimal.digits d))
              (Z.pos n # d)) eqn:E; [exact Hup |].
  replace (PyDecimal.digits n - PyDecimal.digits d - 1 + 1)%Z
    with (PyDecimal.digits n - PyDecimal.digits d)%Z by lia.
  apply Qnot_le_lt. intros H. apply Qle_bool_iff in H. rewrite H in E. discriminate E.
Qed.

Lemma round_half_even_exact (s : Q) (S : Z) :
  s == inject_Z S → PyDecimal.round_half_even (Qnum s) (Qden s) = S.
Proof.
  unfold Qeq, inject_Z. simpl. intros H. rewrite Z.mul_1_r in H.
  unfold PyDecimal.round_half_even. rewrite H.
  rewrite Z.div_mul, Z.mod_mul by lia. reflexivity.
Qed.

(** Rounding a positive value that has at most [PyDecimal.prec] significant PyDecimal.digits
    gives the value back. *)
Lemma fix_pos_exact (n d : positive) (c z : Z) :
  (c < 10 ^ PyDecimal.prec)%Z →
  Z.pos n # d == inject_Z c * PyDecimal.pow10 z →
  inject_Z
    (PyDecimal.round_half_even
       (Qnum ((Z.pos n # d) * PyDecimal.pow10 (PyDecimal.prec - 1 - PyDecimal.adjusted n d)))
       (Qden ((Z.pos n # d) * PyDecimal.pow10 (PyDecimal.prec - 1 - PyDecimal.adjusted n d)))) *
  PyDecimal.pow10 (PyDecimal.adjusted n d - (PyDecimal.prec - 1)) == Z.pos n # d.
Proof.
  intros Hc Hq.
  set (e := PyDecimal.adjusted n d).
  assert (e < PyDecimal.prec + z)%Z as He.
  { apply pow10_lt_inv.
    apply Qle_lt_trans with (Z.pos n # d); [apply adjusted_le |].
    rewrite Hq, pow10_add. apply Qmult_lt_r; [apply pow10_pos |].
    rewrite pow10_Z by (unfold PyDecimal.prec; lia). by rewrite <- Zlt_Qlt. }
  assert ((Z.pos n # d) * PyDecimal.pow10 (PyDecimal.prec - 1 - e) ==
          inject_Z (c * 10 ^ (z + (PyDecimal.prec - 1 - e)))) as Hs.
  { rewrite Hq, <- Qmult_assoc, <- pow10_add.
    rewrite pow10_Z by lia. by rewrite inject_Z_mult. }
  rewrite (round_half_even_exact _ _ Hs), <- Hs.
  rewrite <- Qmult_assoc.
  replace (e - (PyDecimal.prec - 1))%Z with (- (PyDecimal.prec - 1 - e))%Z by lia.
  rewrite pow10_cancel. apply Qmult_1_r.
Qed.

Lemma fix_q_exact (q : Q) (c z : Z) :
  (Z.abs c < 10 ^ PyDecimal.prec)%Z →
  q == inject_Z c * PyDecimal.pow10 z →
  PyDecimal.fix_q q == q.
Proof.
  intros Hc Hq. destruct q as [[|n|n] d]; unfold PyDecimal.fix_q; cbn [Qnum Qden].
  - reflexivity.
  - apply (fix_pos_exact n d c z); [lia | exact Hq].
  - assert (Z.pos n # d == inject_Z (- c) * PyDecimal.pow10 z) as Hq'.
    { change (Z.pos n # d) with (- (Z.neg n # d)).
      rewrite Hq, inject_Z_opp. ring. }
    rewrite (fix_pos_exact n d (- c) z); [reflexivity | lia | exact Hq'].
Qed.

Lemma ctx_fix_exact (x : Qc) (c z : Z) :
  (Z.abs c < 10 ^ PyDecimal.prec)%Z →
  this x == inject_Z c * PyDecimal.pow10 z →
  PyDecimal.ctx_fix x = x.
Proof.
  intros Hc Hx. apply Qc_is_canon. unfold PyDecimal.ctx_fix. simpl.
  rewrite Qred_correct. eapply fix_q_exact; eauto.
Qed.

Local Close Scope Q_scope.

(** The handler's subtraction and addition are exact when the exact
    result has at most 28 significant digits. *)
Lemma py_sub_exact (x q : Qc) :
  fits_context (x - q)%Qc → PyDecimal.sub (Fin x) (Fin q) = Ok (Fin (x - q)%Qc).
Proof.
  intros (c & z & Hc & Hx). rewrite py_sub_finite. do 2 f_equal.
  by apply (ctx_fix_exact _ c z).
Qed.

Lemma py_add_exact (y q : Qc) :
  fits_context (y + q)%Qc → PyDecimal.add (Fin y) (Fin q) = Ok (Fin (y + q)%Qc).
Proof.
  intros (c & z & Hc & Hx). rewrite py_add_finite. do 2 f_equal.
  by apply (ctx_fix_exact _ c z).
Qed.

(** C5, as amended.  Every successful transfer answers with the sender's
    balance read before the transaction minus the amount and the
    receiver's balance read before plus the amount, both computed by the
    handler's decimal arithmetic, that is rounded to the 28 significant
    digits of the decimal context, and so exactly whenever the exact
    result has at most 28 significant digits; with balances 100 and 0,
    transferring 30 from account 1 to account 2 answers 70 and 30. *)
Theorem transfer_answer_from_snapshot :
  (∀ (w : world) (s r : Z) (a : decimal) resp w' sender receiver,
     transfer s r a w = (Ok resp, w') →
     accounts (store w) !! s = Some sender →
     accounts (store w) !! r = Some receiver →
     PyDecimal.sub (acc_amount sender) a = Ok (sender_amount resp) ∧
     PyDecimal.add (acc_amount receiver) a = Ok (receiver_amount resp)) ∧
  (∀ x q : Qc,
     fits_context (x - q)%Qc →
     PyDecimal.sub (Fin x) (Fin q) = Ok (Fin (x - q)%Qc)) ∧
  (∀ y q : Qc,
     fits_context (y + q)%Qc →
     PyDecimal.add (Fin y) (Fin q) = Ok (Fin (y + q)%Qc)) ∧
  (run (transfer 1 2 (dZ 30)) scenario_db).1 = Ok (TransferResponse (dZ 70) (dZ 30)).
Proof.
  split; [| split; [exact py_sub_exact | split; [exact py_add_exact |]]].
  - intros w s r a resp w' sender receiver H Hs Hr.
    apply transfer_ok in H as (_ & _ & sender' & receiver' & Hs' & Hr' & _ & Hx & Hy & _).
    rewrite Hs in Hs'. rewrite Hr in Hr'.
    injection Hs' as <-. injection Hr' as <-. done.
  - vm_compute. do 2 f_equal; apply Qc_decimal_eq; reflexivity.
Qed.

Lemma transfer_answer_from_snapshot_witness :
  PyDecimal.sub (dZ 100) long_amount =
    Ok (sender_amount
          (match (transfer 1 2 long_amount (World scenario_db [])).1 with
           | Ok resp => resp
           | Raise _ => TransferResponse NaN NaN
           end)) ∧
  PyDecimal.add (dZ 0) long_amount =
    Ok (receiver_amount
          (match (transfer 1 2 long_amount (World scenario_db [])).1 with
           | Ok resp => resp
           | Raise _ => TransferResponse NaN NaN
           end)).
Proof.
  apply (proj1 transfer_answer_from_snapshot (World scenario_db []) 1 2 long_amount
           _ (transfer 1 2 long_amount (World scenario_db [])).2
           (Account AccountType.USER (dZ 100)) (Account AccountType.USER (dZ 0))).
  - vm_compute. reflexivity.
  - reflexivity.
  - reflexivity.
Defined.

(** C5, as worded, fails: the answer is rounded to 28 significant digits,
    so for an amount of 35 digits taken from a balance of 100 it is not
    the exact difference. *)
Lemma answer_is_rounded : ¬ answer_is_exact.
Proof.
  intros Hclaim.
  destruct (run (transfer 1 2 long_amount) scenario_db) as [[resp|e] d'] eqn:E.
  - destruct (Hclaim scenario_db 1 2 long_amount resp d'
                (Account AccountType.USER (dZ 100)) (Account AccountType.USER (dZ 0))
                E eq_refl eq_refl) as [Hs _].
    assert (resp = match (run (transfer 1 2 long_amount) scenario_db).1 with
                   | Ok resp => resp
                   | Raise _ => TransferResponse NaN NaN
                   end) as -> by (by rewrite E).
    vm_compute in Hs. discriminate Hs.
  - assert (succeeded (run (transfer 1 2 long_amount) scenario_db).1 = true)
      as Hok by (vm_compute; reflexivity).
    rewrite E in Hok. discriminate Hok.
Qed.

(* --------------------------------------------------------------------- *)
(*  Reading a wallet                                                     *)
(* --------------------------------------------------------------------- *)

(** C10. For a user account without a wallet row, [get_wallet] neither
    answers a view nor raises AccountNotFoundError: the merge is applied
    to the empty result of the wallet query and fails with a TypeError;
    the store is only read. *)
Theorem get_wallet_user_without_wallet (d : db) (account_id : Z) (a : account) :
  accounts d !! account_id = Some a →
  acc_type a = AccountType.USER →
  (∀ w, w ∈ wallets d → user_id w ≠ account_id) →
  run (get_wallet account_id) d = (Raise TypeError, d).
Proof.
  intros Ha Hty Hnone. unfold run, get_wallet.
  unfold bind at 1, Sql.select_account. rewrite statement_no_fault. simpl.
  rewrite Ha. simpl. rewrite decide_True by done.
  unfold bind, Sql.select_wallet. rewrite statement_no_fault. simpl.
  destruct (filter (λ w, user_id w = account_id) (wallets d)) as [|w l] eqn:E;
    [reflexivity |].
  assert (w ∈ filter (λ w, user_id w = account_id) (wallets d)) as Hin
    by (rewrite E; left).
  apply list_elem_of_filter in Hin as [Hid Hin]. by apply Hnone in Hin.
Qed.

Lemma get_wallet_user_without_wallet_witness :
  run (get_wallet 1) (Db (accounts scenario_db) [default_wallet 2] []) =
    (Raise TypeError, Db (accounts scenario_db) [default_wallet 2] []).
Proof.
  apply (get_wallet_user_without_wallet
           (Db (accounts scenario_db) [default_wallet 2] []) 1
           (Account AccountType.USER (dZ 100))).
  - reflexivity.
  - reflexivity.
  - intros w Hin. apply list_elem_of_singleton in Hin as ->. simpl. lia.
Defined.

(* --------------------------------------------------------------------- *)
(*  Command tags                                                         *)
(* --------------------------------------------------------------------- *)

Lemma rev_app_rev_app (s a b : string) :
  String.rev_app (String.rev_app s a) b = String.rev_app a (s +:+ b).
Proof.
  revert a b. induction s as [|c s IH]; intros a b; simpl; [reflexivity |].
  rewrite IH. reflexivity.
Qed.

Lemma string_app_empty (s : string) : s +:+ "" = s.
Proof.
  induction s as [|c s IH]; [reflexivity |].
  change (String c (s +:+ "") = String c s). by rewrite IH.
Qed.

(** A run of digits is one word. *)
Lemma words_go_digits (d : Decimal.uint) (acc : string) :
  String.words_go (Some acc) (NilEmpty.string_of_uint d) =
    [String.rev (String.rev_app (NilEmpty.string_of_uint d) acc)].
Proof.
  revert acc. induction d as [|d IH|d IH|d IH|d IH|d IH|d IH|d IH|d IH|d IH|d IH];
    intros acc; simpl; [reflexivity | rewrite IH; reflexivity ..].
Qed.

Lemma words_of_nat (n : nat) : String.words_go None (Tag.of_nat n) = [Tag.of_nat n].
Proof.
  unfold Tag.of_nat, NilZero.string_of_uint.
  destruct (Nat.to_uint n) as [|d|d|d|d|d|d|d|d|d|d]; [reflexivity | ..];
    simpl; rewrite words_go_digits; unfold String.rev;
    rewrite rev_app_rev_app; simpl; by rewrite string_app_empty.
Qed.

Lemma words_update (n : nat) :
  String.words (Tag.update n) = ["UPDATE"; Tag.of_nat n].
Proof.
  change (String.words (Tag.update n))
    with ("UPDATE" :: String.words_go None (Tag.of_nat n)).
  by rewrite words_of_nat.
Qed.

Lemma int_of_nat (n : nat) : Tag.int (Tag.of_nat n) = Ok n.
Proof.
  unfold Tag.int, Tag.of_nat.
  destruct (Nat.to_uint n) as [|d|d|d|d|d|d|d|d|d|d] eqn:E.
  { simpl. f_equal. rewrite <- (Unsigned.of_to n), E. reflexivity. }
  all: rewrite NilZero.usu by discriminate;
    f_equal; rewrite <- E; apply Unsigned.of_to.
Qed.

(* --------------------------------------------------------------------- *)
(*  The steal counters                                                   *)
(* --------------------------------------------------------------------- *)

Lemma matched_rows_Exists (id : Z) (l : list wallet) :
  length (filter (λ w, user_id w = id) l) ≠ 0%nat ↔ Exists (λ w, user_id w = id) l.
Proof.
  induction l as [|w l IH]; simpl.
  - split; [done | intros H; inversion H].
  - rewrite filter_cons. destruct (decide (user_id w = id)) as [Hw|Hw]; simpl.
    + split; [intros _; by left | done].
    + rewrite IH. split; [by right | intros H; inversion H; done].
Qed.

Lemma unmatched_rows_kept (bump : wallet → wallet) (id : Z) (l : list wallet) :
  ¬ Exists (λ w, user_id w = id) l →
  (λ w, if decide (user_id w = id) then bump w else w) <$> l = l.
Proof.
  induction l as [|w l IH]; intros Hno; [reflexivity |].
  rewrite fmap_cons, decide_False, IH; [reflexivity | |].
  - intros H. apply Hno. by right.
  - intros H. apply Hno. by left.
Qed.

(** Either handler on a store that does not fail: it answers whether a
    wallet row matched, and bumps the matching rows if any. *)
Lemma inc_steal_run (bump : wallet → wallet) (id : Z) (d : db) :
  inc_steal bump id (World d []) =
    (Ok (has_wallet d id),
     World (if has_wallet d id then bumped bump id d else d) []).
Proof.
  unfold inc_steal, transaction.
  unfold bind at 1, Sql.update_wallets. rewrite statement_no_fault. cbn [fst snd].
  unfold bind at 1, lift at 1. rewrite words_update. cbn [Tag.unpack2 snd].
  unfold bind, lift. rewrite int_of_nat. unfold has_wallet.
  destruct (decide (length (filter (λ w, user_id w = id) (wallets d)) ≠ 0%nat))
    as [Hn|Hn]; simpl.
  - rewrite bool_decide_eq_true_2 by (by apply matched_rows_Exists). reflexivity.
  - rewrite bool_decide_eq_false_2 by (by rewrite <- matched_rows_Exists).
    rewrite unmatched_rows_kept by (by rewrite <- matched_rows_Exists).
    destruct d; reflexivity.
Qed.

(** C7. Neither counter handler raises for an absent wallet.  Each
    answers [true] when a wallet row matches and has then added exactly
    one to its own counter in the matching rows, touching nothing else,
    and answers [false] with the store unchanged when none matches. *)
Theorem inc_steal_outcome (d : db) (id : Z) :
  run (inc_steal_use id) d =
    (Ok (has_wallet d id), if has_wallet d id then bumped bump_uses id d else d) ∧
  run (inc_steal_success id) d =
    (Ok (has_wallet d id), if has_wallet d id then bumped bump_success id d else d) ∧
  (∀ w, steal_uses (bump_uses w) = steal_uses w + 1 ∧
        steal_success (bump_uses w) = steal_success w ∧
        steal_success (bump_success w) = steal_success w + 1 ∧
        steal_uses (bump_success w) = steal_uses w).
Proof.
  unfold run, inc_steal_use, inc_steal_success. rewrite !inc_steal_run.
  repeat split.
Qed.

(* --------------------------------------------------------------------- *)
(*  Creating an account                                                  *)
(* --------------------------------------------------------------------- *)

(** On a store that does not fail, creating a fresh account inserts its
    row with the default balance and, for a user, a wallet row with zero
    counters; for any other type only the account row. *)
Lemma create_account_run (d : db) (id ty : Z) :
  accounts d !! id = None →
  run (create_account id ty) d =
    (Ok "1",
     Db (<[id := Account ty default_amount]> (accounts d))
        (if decide (ty = 0) then wallets d ++ [default_wallet id] else wallets d)
        (transactions d)).
Proof.
  intros Hfresh. unfold run, create_account.
  unfold bind at 1, Sql.insert_account. rewrite statement_no_fault. simpl.
  rewrite Hfresh. simpl.
  destruct (decide (ty = 0)); reflexivity.
Qed.

(** An id that is taken is refused and nothing is inserted. *)
Lemma create_account_duplicate (d : db) (id ty : Z) :
  is_Some (accounts d !! id) →
  run (create_account id ty) d = (Raise UniqueViolationError, d).
Proof.
  intros [a Ha]. unfold run, create_account.
  unfold bind at 1, Sql.insert_account. rewrite statement_no_fault. simpl.
  rewrite Ha. reflexivity.
Qed.

(** C6. The two inserts of [create_account] are not one unit: when the
    store fails the second statement, the account row of the new user
    stays without a wallet row.  (A transfer in the same situation is
    rolled back, see [transfer_commit_atomic].) *)
Theorem create_account_not_atomic :
  let out := create_account 42 AccountType.USER (World empty_db [false; true]) in
  out.1 = Raise StoreError ∧
  accounts (store out.2) !! 42 = Some (Account AccountType.USER default_amount) ∧
  wallets (store out.2) = [].
Proof. repeat split. Qed.

(* --------------------------------------------------------------------- *)
(*  The sums                                                             *)
(* --------------------------------------------------------------------- *)

Lemma foldl_add_foldr (x : decimal) (l : list decimal) :
  foldl Numeric.add x l = Numeric.add x (foldr Numeric.add (dZ 0) l).
Proof.
  revert x. induction l as [|y l IH]; intros x; simpl.
  - by rewrite numeric_add_zero_r.
  - rewrite IH. by rewrite numeric_add_assoc.
Qed.

(** A sum with NULL read as zero is the plain sum from zero. *)
Lemma or_zero_sum (l : list decimal) :
  or_zero (Numeric.sum l) = foldr Numeric.add (dZ 0) l.
Proof. destruct l as [|x l]; simpl; [reflexivity | apply foldl_add_foldr]. Qed.

(** Over rows that are all of type USER or TAXBANK, the sum of all
    balances is the sum of the two per-type sums. *)
Lemma sum_split_by_type (l : list account) :
  Forall (λ a, acc_type a = AccountType.USER ∨ acc_type a = AccountType.TAXBANK) l →
  foldr Numeric.add (dZ 0) (acc_amount <$> l) =
  Numeric.add
    (foldr Numeric.add (dZ 0)
       (acc_amount <$> filter (λ a, acc_type a = AccountType.USER) l))
    (foldr Numeric.add (dZ 0)
       (acc_amount <$> filter (λ a, acc_type a = AccountType.TAXBANK) l)).
Proof.
  induction 1 as [|a l Hty _ IH].
  - symmetry. apply (numeric_add_zero_l (dZ 0)).
  - rewrite !filter_cons, fmap_cons. cbn [foldr]. rewrite IH.
    destruct Hty as [Hty|Hty]; rewrite Hty.
    + rewrite decide_True by done.
      rewrite (decide_False (P := AccountType.USER = AccountType.TAXBANK)) by done.
      rewrite fmap_cons. cbn [foldr]. by rewrite numeric_add_assoc.
    + rewrite (decide_False (P := AccountType.TAXBANK = AccountType.USER)) by done.
      rewrite decide_True by done.
      rewrite fmap_cons. cbn [foldr].
      rewrite !numeric_add_assoc. f_equal. apply numeric_add_comm.
Qed.

Lemma get_sums_run (d : db) :
  run get_sums d =
    (Ok (Sums
           (Numeric.sum (acc_amount <$> (map_to_list (accounts d)).*2))
           (Numeric.sum
              (acc_amount <$>
                 filter (λ a, acc_type a = AccountType.USER) (map_to_list (accounts d)).*2))
           (Numeric.sum
              (acc_amount <$>
                 filter (λ a, acc_type a = AccountType.TAXBANK) (map_to_list (accounts d)).*2))),
     d).
Proof. reflexivity. Qed.

(** C8, as amended.  On every store whose accounts are all of type USER
    or TAXBANK, the GDP equals the sum of the user sum and the tax bank
    sum, a sum over no rows counting as zero. *)
Theorem gdp_is_sum_of_user_and_taxbank (d : db) :
  (∀ k a, accounts d !! k = Some a →
     acc_type a = AccountType.USER ∨ acc_type a = AccountType.TAXBANK) →
  ∃ s, run get_sums d = (Ok s, d) ∧
       or_zero (gdp s) = Numeric.add (or_zero (user s)) (or_zero (taxbank s)).
Proof.
  intros Hty. eexists. split; [apply get_sums_run |].
  cbn [gdp user taxbank]. rewrite !or_zero_sum. apply sum_split_by_type.
  apply Forall_forall. intros a Hin.
  apply list_elem_of_fmap in Hin as ([k a'] & -> & Hin).
  apply elem_of_map_to_list in Hin. by apply (Hty k).
Qed.

Lemma gdp_is_sum_of_user_and_taxbank_witness :
  ∃ s, run get_sums scenario_db = (Ok s, scenario_db) ∧
       or_zero (gdp s) = Numeric.add (or_zero (user s)) (or_zero (taxbank s)).
Proof.
  apply (gdp_is_sum_of_user_and_taxbank scenario_db).
  intros k a Hk. left.
  destruct (decide (k = 1)) as [->|H1]; [by injection Hk as <- |].
  destruct (decide (k = 2)) as [->|H2]; [by injection Hk as <- |].
  unfold scenario_db in Hk. simpl in Hk.
  rewrite !lookup_insert_ne, lookup_empty in Hk by done. discriminate Hk.
Defined.

(** C8, as worded, fails: [create_account] stores whatever type it is
    given, and the balance of an account of type 2 is part of the GDP but
    of neither per-type sum. *)
Lemma gdp_exceeds_typed_sums : ¬ gdp_is_sum_of_types.
Proof.
  intros Hclaim.
  specialize (Hclaim stray_type_db _ _ (get_sums_run stray_type_db)).
  apply (f_equal (λ x, match x with Fin q => Some (this q) | _ => None end)) in Hclaim.
  vm_compute in Hclaim. discriminate Hclaim.
Qed.

(* --------------------------------------------------------------------- *)
(*  Concurrent transfers                                                 *)
(* --------------------------------------------------------------------- *)

(** The checks on a store that does not fail leave the world as it is. *)
Lemma transfer_validate_world s r a d :
  (transfer_validate s r a (World d [])).2 = World d [].
Proof.
  unfold transfer_validate. destruct (decide (r = s)); [reflexivity |].
  unfold bind at 1, lift at 1.
  destruct (PyDecimal.lt a PyDecimal.float_0_0009) as [[]|]; try reflexivity.
  unfold bind at 1, Sql.select_accounts. rewrite statement_no_fault. cbn [fst snd].
  destruct (by_account_id _ !! s); [| reflexivity].
  destruct (by_account_id _ !! r); [| reflexivity].
  unfold bind, lift. destruct (PyDecimal.gt _ _) as [[]|]; reflexivity.
Qed.

(** The two steps of a request, run back to back, are the handler. *)
Lemma task_steps_are_transfer (d : db) (s r : Z) (a : decimal) :
  task_step (task_step d (Pending s r a)).1 (task_step d (Pending s r a)).2 =
    ((run (transfer s r a) d).2, Finished (run (transfer s r a) d).1).
Proof.
  pose proof (transfer_validate_world s r a d) as Hw.
  destruct (transfer_validate s r a (World d [])) as [[snapshot|e] w] eqn:E;
    simpl in Hw; subst w.
  - assert (task_step d (Pending s r a) = (d, Validated s r a snapshot.1 snapshot.2))
      as -> by (unfold task_step, run; rewrite E; reflexivity).
    assert (run (transfer s r a) d =
            run (transfer_commit s r a ;;; transfer_respond a snapshot.1 snapshot.2) d)
      as -> by (unfold run, transfer; rewrite (bind_ok _ _ _ _ _ E); reflexivity).
    cbn [fst snd task_step]. destruct (run _ d) as [res d']. reflexivity.
  - assert (task_step d (Pending s r a) = (d, Finished (Raise e)))
      as -> by (unfold task_step, run; rewrite E; reflexivity).
    assert (run (transfer s r a) d = (Raise e, d))
      as -> by (unfold run, transfer; rewrite (bind_raise _ _ _ _ _ E); reflexivity).
    reflexivity.
Qed.

Lemma task_step_pending d s r (q b : Qc) sender receiver :
  r ≠ s →
  PyDecimal.lt (Fin q) PyDecimal.float_0_0009 = Ok false →
  accounts d !! s = Some sender →
  acc_amount sender = Fin b →
  accounts d !! r = Some receiver →
  (q <= b)%Qc →
  task_step d (Pending s r (Fin q)) = (d, Validated s r (Fin q) (Fin b) receiver).
Proof.
  intros Hne Hlt Hs Hb Hr Hle. unfold task_step, run.
  rewrite (transfer_validate_run _ _ _ _ _ _ Hne Hlt Hs Hr), Hb.
  apply Qcle_alt in Hle.
  change ((q ?= b)%Qc ≠ Gt) in Hle.
  unfold PyDecimal.gt, PyDecimal.cmp. cbn [PyDecimal.is_nan orb].
  destruct (q ?= b)%Qc; done.
Qed.

(** The update of a validated request for a finite amount is
    unconditional: it moves the amount and the request succeeds. *)
Lemma task_step_validated d s r (q : Qc) sa ra :
  ∃ resp,
    task_step d (Validated s r (Fin q) sa ra) =
      (Db (moved s r (Fin q) (accounts d)) (wallets d)
          (transactions d ++ [Tx s r (Fin q)]),
       Finished (Ok resp)).
Proof.
  destruct (py_sub_finite_ok sa q) as [x Hx].
  destruct (py_add_finite_ok (acc_amount ra) q) as [y Hy].
  exists (TransferResponse x y). unfold task_step, run.
  rewrite (bind_ok _ _ _ _ _ (transfer_commit_run s r (Fin q) d)).
  unfold transfer_respond, bind, lift, ret. rewrite Hx, Hy. reflexivity.
Qed.

Lemma passes_minimum_positive (q : Qc) :
  PyDecimal.lt (Fin q) PyDecimal.float_0_0009 = Ok false → (0 < q)%Qc.
Proof.
  unfold PyDecimal.lt, PyDecimal.float_0_0009, dQ, PyDecimal.cmp.
  cbn [PyDecimal.is_nan orb].
  assert (0 < Q2Qc (8301034833169298 # 2 ^ 63))%Qc as Hpos by reflexivity.
  destruct (q ?= Q2Qc (8301034833169298 # 2 ^ 63))%Qc eqn:E; [| discriminate |]; intros _.
  - apply Qceq_alt in E. by rewrite E.
  - apply Qcgt_alt in E. eapply Qclt_trans; [exact Hpos | exact E].
Qed.

Lemma good_task_owed_nonneg sender_id d t :
  good_task sender_id d t → (0 <= owed t)%Qc.
Proof.
  destruct t as [s r [q| | |]|s r [q| | |] sa ra|[resp|e]]; simpl; try done.
  all: intros (_ & _ & _ & H); by apply Qclt_le_weak, passes_minimum_positive.
Qed.

Lemma outstanding_nonneg sender_id d ts :
  Forall (good_task sender_id d) ts → (0 <= outstanding ts)%Qc.
Proof.
  induction 1 as [|t ts Ht _ IH]; simpl; [done |].
  apply Qcplus_nonneg_nonneg; [eapply good_task_owed_nonneg, Ht | exact IH].
Qed.

Lemma owed_le_outstanding sender_id d ts i t :
  Forall (good_task sender_id d) ts →
  ts !! i = Some t →
  (owed t <= outstanding ts)%Qc.
Proof.
  intros Hgood. revert i. induction Hgood as [|t0 ts Ht0 Hts IH]; intros i Hi.
  { discriminate Hi. }
  destruct i as [|i]; simpl in *.
  - injection Hi as ->.
    rewrite <- (Qcplus_0_r (owed t)) at 1.
    apply Qcplus_le_mono_l. eapply outstanding_nonneg, Hts.
  - rewrite <- (Qcplus_0_l (owed t)).
    apply Qcplus_le_compat; [eapply good_task_owed_nonneg, Ht0 | eapply IH, Hi].
Qed.

Lemma outstanding_insert ts i t t' :
  ts !! i = Some t →
  (outstanding (<[i := t']> ts) + owed t = outstanding ts + owed t')%Qc.
Proof.
  revert i. induction ts as [|t0 ts IH]; intros i Hi; [discriminate Hi |].
  destruct i as [|i]; simpl in *.
  - injection Hi as ->. ring.
  - rewrite <- !Qcplus_assoc. rewrite (IH i Hi). reflexivity.
Qed.

Lemma outstanding_requests sender_id reqs :
  outstanding (requests sender_id reqs) = total_requested reqs.
Proof.
  induction reqs as [|rq reqs IH]; simpl; [reflexivity | by rewrite IH].
Qed.

Lemma outstanding_finished ts :
  Forall (λ t, is_finished t = true) ts → outstanding ts = 0%Qc.
Proof.
  induction 1 as [|t ts Ht _ IH]; simpl; [reflexivity |].
  rewrite IH. destruct t; try discriminate Ht. simpl. ring.
Qed.

Lemma moved_is_Some s r a (m : gmap Z account) k :
  is_Some (m !! k) → is_Some (moved s r a m !! k).
Proof.
  intros H. apply elem_of_dom. apply elem_of_dom in H.
  unfold moved. by rewrite !dom_alter_L.
Qed.

Lemma good_task_moved sender_id d s r a ws txs t :
  good_task sender_id d t →
  good_task sender_id (Db (moved s r a (accounts d)) ws txs) t.
Proof.
  destruct t as [s' r' [q| | |]|s' r' [q| | |] sa ra|[resp|e]]; simpl; try done.
  all: intros (? & ? & ? & ?); repeat split; try done; by apply moved_is_Some.
Qed.

Lemma debit_invariant_init d sender_id reqs :
  balance d sender_id = Some (Fin (total_requested reqs)) →
  Forall (λ rq, rq.1 ≠ sender_id ∧ is_Some (accounts d !! rq.1) ∧
                PyDecimal.lt (Fin rq.2) PyDecimal.float_0_0009 = Ok false) reqs →
  debit_invariant sender_id (System d (requests sender_id reqs)).
Proof.
  intros Hb Hreqs. split; simpl.
  - by rewrite outstanding_requests.
  - unfold requests. apply Forall_fmap.
    eapply Forall_impl; [exact Hreqs |]. intros rq (? & ? & ?). simpl. done.
Qed.

Lemma remaining_insert ts i t t' :
  ts !! i = Some t →
  (remaining (<[i := t']> ts) + steps_left t = remaining ts + steps_left t')%nat.
Proof.
  revert i. induction ts as [|t0 ts IH]; intros i Hi; [discriminate Hi |].
  destruct i as [|i]; simpl in *.
  - injection Hi as ->. lia.
  - specialize (IH i Hi). lia.
Qed.

Lemma remaining_requests sender_id reqs :
  remaining (requests sender_id reqs) = (2 * length reqs)%nat.
Proof. induction reqs as [|rq reqs IH]; simpl in *; lia. Qed.

Lemma remaining_zero ts :
  remaining ts = 0%nat → Forall (λ t, is_finished t = true) ts.
Proof.
  induction ts as [|t ts IH]; simpl; intros H; constructor.
  - destruct t; simpl in H; [lia | lia | reflexivity].
  - apply IH. lia.
Qed.

Lemma remaining_pos ts :
  (0 < remaining ts)%nat → ∃ i t, ts !! i = Some t ∧ is_finished t = false.
Proof.
  induction ts as [|t ts IH]; simpl; intros H; [lia |].
  destruct (is_finished t) eqn:Hf.
  - destruct t; try discriminate Hf. simpl in H.
    destruct (IH H) as (i & t' & Hi & Hf'). by exists (S i), t'.
  - by exists 0%nat, t.
Qed.

(** A step of the server keeps the invariant and is one step of one
    request. *)
Lemma debit_invariant_step sender_id σ σ' :
  debit_invariant sender_id σ → sys_step σ σ' →
  debit_invariant sender_id σ' ∧
  (remaining (sys_tasks σ') + 1 = remaining (sys_tasks σ))%nat.
Proof.
  intros [Hbal Hgood] Hstep. destruct Hstep as [σ i t Hi Hunf].
  destruct σ as [d ts]. simpl in *.
  pose proof (Forall_lookup_1 _ _ _ _ Hgood Hi) as Ht.
  pose proof (owed_le_outstanding _ _ _ _ _ Hgood Hi) as Hle.
  unfold balance in Hbal.
  destruct (accounts d !! sender_id) as [sender|] eqn:Hs; [| discriminate Hbal].
  injection Hbal as Hbal.
  destruct t as [s r [q| | |]|s r [q| | |] sa ra|res]; simpl in Ht; try done.
  - (* the read of a pending request *)
    destruct Ht as (-> & Hne & [receiver Hr] & Hlt).
    rewrite (task_step_pending d sender_id r q _ sender receiver Hne Hlt Hs Hbal Hr Hle).
    split; [split |]; simpl.
    + unfold balance. rewrite Hs. simpl. rewrite Hbal. do 2 f_equal.
      pose proof (outstanding_insert ts i _
                    (Validated sender_id r (Fin q) (Fin (outstanding ts)) receiver) Hi)
        as Hins.
      simpl in Hins. by apply (inj (λ x, x + q)%Qc) in Hins.
    + apply Forall_insert; [done |]. simpl. eauto.
    + pose proof (remaining_insert ts i _
                    (Validated sender_id r (Fin q) (Fin (outstanding ts)) receiver) Hi)
        as Hins.
      simpl in Hins. lia.
  - (* the transaction of a validated request *)
    destruct Ht as (-> & Hne & Hrec & Hlt).
    destruct (task_step_validated d sender_id r q sa ra) as [resp ->].
    split; [split |]; simpl.
    + unfold balance. simpl. rewrite moved_lookup_sender, Hs by done. simpl.
      rewrite Hbal. simpl. do 2 f_equal.
      pose proof (outstanding_insert ts i _ (Finished (Ok resp)) Hi) as Hins.
      simpl in Hins. rewrite Qcplus_0_r in Hins. rewrite <- Hins. ring.
    + apply Forall_insert; [| done].
      eapply Forall_impl; [exact Hgood |]. intros t. apply good_task_moved.
    + pose proof (remaining_insert ts i _ (Finished (Ok resp)) Hi) as Hins.
      simpl in Hins. lia.
Qed.

Lemma debit_invariant_nsteps sender_id n σ σ' :
  debit_invariant sender_id σ → nsteps sys_step n σ σ' →
  debit_invariant sender_id σ' ∧
  (remaining (sys_tasks σ') + n = remaining (sys_tasks σ))%nat.
Proof.
  intros Hinv Hn. induction Hn as [|n σ1 σ2 σ3 Hstep _ IH]; [split; [done | lia] |].
  destruct (debit_invariant_step _ _ _ Hinv Hstep) as [Hinv2 Hrem].
  destruct (IH Hinv2) as [Hinv3 Hrem3]. split; [done | lia].
Qed.

(** Running a schedule is a sequence of steps of the server. *)
Lemma sys_run_rtc (schedule : list nat) (σ : system) :
  rtc sys_step σ (sys_run schedule σ).
Proof.
  revert σ. induction schedule as [|i schedule IH]; intros σ; simpl; [done |].
  etrans; [| apply IH].
  unfold sys_run_one. destruct (sys_tasks σ !! i) as [t|] eqn:Hi; [| done].
  destruct (is_finished t) eqn:Hf; [done |].
  apply rtc_once. by constructor.
Qed.

(** A live schedule takes as many steps of the server as it is long. *)
Lemma sys_run_nsteps (schedule : list nat) (σ : system) :
  schedule_live schedule σ = true →
  nsteps sys_step (length schedule) σ (sys_run schedule σ).
Proof.
  revert σ. induction schedule as [|i schedule IH]; intros σ Hlive; simpl.
  { constructor. }
  simpl in Hlive. unfold sys_run_one in *.
  destruct (sys_tasks σ !! i) as [t|] eqn:Hi; [| discriminate Hlive].
  destruct (is_finished t) eqn:Hf; [discriminate Hlive |]. simpl in Hlive.
  eapply nsteps_l; [| apply IH, Hlive]. by constructor.
Qed.

Lemma good_finished_ok sender_id d t :
  good_task sender_id d t → is_finished t = true → finished_ok t.
Proof.
  destruct t as [| |[resp|e]]; simpl; try discriminate; [| done].
  intros _ _. by exists resp.
Qed.

Lemma good_no_error sender_id d t : good_task sender_id d t → no_error t.
Proof. destruct t as [| |[resp|e]]; simpl; done. Qed.

Lemma concurrent_debits_hold : concurrent_debits_ok.
Proof.
  intros d sender_id reqs n σ Hbal Hreqs Hn.
  destruct (debit_invariant_nsteps sender_id n _ σ
              (debit_invariant_init d sender_id reqs Hbal Hreqs) Hn)
    as [[Hb Hgood] Hrem].
  simpl in Hrem. rewrite remaining_requests in Hrem.
  split; [| split; [| split; [| split]]].
  - exists (outstanding (sys_tasks σ)). split; [done |].
    eapply outstanding_nonneg, Hgood.
  - eapply Forall_impl; [exact Hgood |]. intros t. apply good_no_error.
  - lia.
  - intros Hlt.
    destruct (remaining_pos (sys_tasks σ)) as (i & t & Hi & Hf); [lia |].
    eexists. by econstructor.
  - intros ->.
    assert (Forall (λ t, is_finished t = true) (sys_tasks σ)) as Hfin
      by (apply remaining_zero; lia).
    split.
    + apply Forall_forall. intros t Hin.
      eapply good_finished_ok.
      * eapply Forall_forall in Hgood; [exact Hgood | exact Hin].
      * eapply Forall_forall in Hfin; [exact Hfin | exact Hin].
    + rewrite Hb, (outstanding_finished _ Hfin). reflexivity.
Qed.

(** A request whose amount exceeds the balance it reads ends with
    ConditionError and leaves the store as it was. *)
Lemma task_step_pending_short d s r (a : decimal) sender receiver :
  r ≠ s →
  PyDecimal.lt a PyDecimal.float_0_0009 = Ok false →
  accounts d !! s = Some sender →
  accounts d !! r = Some receiver →
  PyDecimal.gt a (acc_amount sender) = Ok true →
  task_step d (Pending s r a) =
    (d, Finished (Raise (ConditionError (NotEnoughFunds a (acc_amount sender))))).
Proof.
  intros Hne Hlt Hs Hr Hgt. unfold task_step, run.
  by rewrite (transfer_validate_run _ _ _ _ _ _ Hne Hlt Hs Hr), Hgt.
Qed.

Lemma sys_run_one_live (σ : system) (i : nat) (t : task) :
  sys_tasks σ !! i = Some t →
  is_finished t = false →
  sys_run_one σ i =
    System (task_step (sys_db σ) t).1 (<[i := (task_step (sys_db σ) t).2]> (sys_tasks σ)).
Proof. intros Hi Hf. unfold sys_run_one. by rewrite Hi, Hf. Qed.

Lemma sys_run_one_step (σ : system) (i : nat) (t : task) :
  sys_tasks σ !! i = Some t → is_finished t = false → sys_step σ (sys_run_one σ i).
Proof.
  intros Hi Hf. rewrite (sys_run_one_live σ i t Hi Hf). by constructor.
Qed.

(** An amount that is more than half the balance exceeds what one debit
    of it leaves. *)
Lemma gt_what_is_left (q b : Qc) :
  (b < q + q)%Qc → PyDecimal.gt (Fin q) (Fin (b - q)) = Ok true.
Proof.
  intros Hlt. unfold PyDecimal.gt, PyDecimal.cmp. cbn [PyDecimal.is_nan orb].
  assert (b - q < q)%Qc as Hgt.
  { apply Qclt_minus_iff. apply Qclt_minus_iff in Hlt.
    replace (q + - (b - q))%Qc with (q + q + - b)%Qc by ring. done. }
  apply (Qcgt_alt q (b - q)) in Hgt.
  change ((q ?= b - q)%Qc = Gt) in Hgt. by rewrite Hgt.
Qed.

(** The two runs of [two_debits], step by step. *)
Lemma two_debits_runs (d : db) (s r : Z) (q b : Qc) (sender receiver : account) :
  r ≠ s →
  accounts d !! s = Some sender →
  acc_amount sender = Fin b →
  accounts d !! r = Some receiver →
  PyDecimal.lt (Fin q) PyDecimal.float_0_0009 = Ok false →
  (q <= b)%Qc →
  (b < q + q)%Qc →
  let d1 := Db (moved s r (Fin q) (accounts d)) (wallets d)
               (transactions d ++ [Tx s r (Fin q)]) in
  let d2 := Db (moved s r (Fin q) (accounts d1)) (wallets d1)
               (transactions d1 ++ [Tx s r (Fin q)]) in
  ∃ resp1 resp2,
    sys_run one_after_the_other (two_debits d s r q) =
      System d1
        [Finished (Ok resp1);
         Finished (Raise (ConditionError (NotEnoughFunds (Fin q) (Fin (b - q)))))] ∧
    sys_run read_read_update_update (two_debits d s r q) =
      System d2 [Finished (Ok resp1); Finished (Ok resp2)] ∧
    nsteps sys_step 4 (two_debits d s r q)
      (sys_run read_read_update_update (two_debits d s r q)).
Proof.
  intros Hne Hs Hb Hr Hmin Hle Hover d1 d2.
  destruct (task_step_validated d s r q (Fin b) receiver) as [resp1 Hv1].
  destruct (task_step_validated d1 s r q (Fin b) receiver) as [resp2 Hv2].
  pose proof (task_step_pending d s r q b sender receiver Hne Hmin Hs Hb Hr Hle) as Hp.
  assert (accounts d1 !! s =
          Some (Account (acc_type sender) (Fin (b - q)))) as Hs1.
  { unfold d1. cbn [accounts]. rewrite moved_lookup_sender, Hs by done.
    cbn. by rewrite Hb. }
  assert (is_Some (accounts d1 !! r)) as [receiver1 Hr1].
  { unfold d1. cbn [accounts]. apply moved_is_Some. by eexists. }
  pose proof (task_step_pending_short d1 s r (Fin q) _ receiver1 Hne Hmin Hs1 Hr1
                (gt_what_is_left q b Hover)) as Hshort.
  cbn [acc_amount] in Hshort.
  (* the steps *)
  assert (sys_run_one (two_debits d s r q) 0 =
          System d [Validated s r (Fin q) (Fin b) receiver; Pending s r (Fin q)]) as E1.
  { rewrite (sys_run_one_live _ 0 (Pending s r (Fin q))) by reflexivity.
    cbn [two_debits sys_db sys_tasks]. by rewrite Hp. }
  assert (sys_run_one
            (System d [Validated s r (Fin q) (Fin b) receiver; Pending s r (Fin q)]) 1 =
          System d [Validated s r (Fin q) (Fin b) receiver;
                    Validated s r (Fin q) (Fin b) receiver]) as E2.
  { rewrite (sys_run_one_live _ 1 (Pending s r (Fin q))) by reflexivity.
    cbn [sys_db sys_tasks]. by rewrite Hp. }
  assert (∀ t, sys_run_one (System d [Validated s r (Fin q) (Fin b) receiver; t]) 0 =
               System d1 [Finished (Ok resp1); t]) as E3.
  { intros t.
    rewrite (sys_run_one_live _ 0 (Validated s r (Fin q) (Fin b) receiver)) by reflexivity.
    cbn [sys_db sys_tasks]. by rewrite Hv1. }
  assert (sys_run_one
            (System d1 [Finished (Ok resp1); Validated s r (Fin q) (Fin b) receiver]) 1 =
          System d2 [Finished (Ok resp1); Finished (Ok resp2)]) as E4.
  { rewrite (sys_run_one_live _ 1 (Validated s r (Fin q) (Fin b) receiver)) by reflexivity.
    cbn [sys_db sys_tasks]. by rewrite Hv2. }
  assert (sys_run_one (System d1 [Finished (Ok resp1); Pending s r (Fin q)]) 1 =
          System d1
            [Finished (Ok resp1);
             Finished (Raise (ConditionError (NotEnoughFunds (Fin q) (Fin (b - q)))))])
    as E5.
  { rewrite (sys_run_one_live _ 1 (Pending s r (Fin q))) by reflexivity.
    cbn [sys_db sys_tasks]. by rewrite Hshort. }
  exists resp1, resp2.
  unfold sys_run, one_after_the_other, read_read_update_update. cbn [foldl].
  rewrite E1, (E3 (Pending s r (Fin q))), E5, E2, (E3 _), E4.
  split; [done |]. split; [done |].
  rewrite <- E4, <- (E3 (Validated s r (Fin q) (Fin b) receiver)), <- E2, <- E1.
  eapply nsteps_l; [apply (sys_run_one_step _ 0 (Pending s r (Fin q))); reflexivity |].
  rewrite E1.
  eapply nsteps_l; [apply (sys_run_one_step _ 1 (Pending s r (Fin q))); reflexivity |].
  rewrite E2.
  eapply nsteps_l;
    [apply (sys_run_one_step _ 0 (Validated s r (Fin q) (Fin b) receiver)); reflexivity |].
  rewrite (E3 _).
  eapply nsteps_l;
    [apply (sys_run_one_step _ 1 (Validated s r (Fin q) (Fin b) receiver)); reflexivity |].
  apply nsteps_O.
Qed.

(** C9.  The funds are checked only by the read before the transaction;
    the update inside it is unconditional.  Take two concurrent requests
    of the same sender, each for an amount that the balance covers once
    but not twice.  Served one after the other, the first succeeds and
    the second is refused with ConditionError, the balance staying at
    what the first left.  Interleaved read, read, update, update (four
    steps of the server, each of a request that has not finished), both
    requests pass the check against the balance as it was, both succeed,
    none returns ConditionError, and the sender's balance ends below
    zero. *)
Theorem concurrent_debits_overdraw (d : db) (s r : Z) (q b : Qc)
    (sender receiver : account) :
  r ≠ s →
  accounts d !! s = Some sender →
  acc_amount sender = Fin b →
  accounts d !! r = Some receiver →
  PyDecimal.lt (Fin q) PyDecimal.float_0_0009 = Ok false →
  (q <= b)%Qc →
  (b < q + q)%Qc →
  (∃ resp,
     sys_tasks (sys_run one_after_the_other (two_debits d s r q)) =
       [Finished (Ok resp);
        Finished (Raise (ConditionError (NotEnoughFunds (Fin q) (Fin (b - q)))))]) ∧
  balance (sys_db (sys_run one_after_the_other (two_debits d s r q))) s =
    Some (Fin (b - q)) ∧
  (0 <= b - q)%Qc ∧
  nsteps sys_step 4 (two_debits d s r q)
    (sys_run read_read_update_update (two_debits d s r q)) ∧
  Forall finished_ok (sys_tasks (sys_run read_read_update_update (two_debits d s r q))) ∧
  balance (sys_db (sys_run read_read_update_update (two_debits d s r q))) s =
    Some (Fin (b - q - q)) ∧
  (b - q - q < 0)%Qc.
Proof.
  intros Hne Hs Hb Hr Hmin Hle Hover.
  destruct (two_debits_runs d s r q b sender receiver Hne Hs Hb Hr Hmin Hle Hover)
    as (resp1 & resp2 & -> & -> & Hsteps).
  cbn [sys_tasks sys_db].
  split; [by exists resp1 |]. split; [| split; [| split; [done | split; [| split]]]].
  - unfold balance. cbn [accounts]. rewrite moved_lookup_sender, Hs by done.
    cbn. by rewrite Hb.
  - apply Qcle_minus_iff in Hle. exact Hle.
  - repeat constructor; by eexists.
  - unfold balance. cbn [accounts].
    rewrite !moved_lookup_sender, Hs by done. cbn. by rewrite Hb.
  - apply Qclt_minus_iff. apply Qclt_minus_iff in Hover.
    replace (Q2Qc 0 + - (b - q - q))%Qc with (q + q + - b)%Qc by ring. done.
Qed.

Lemma concurrent_debits_overdraw_witness :
  (∃ resp,
     sys_tasks (sys_run one_after_the_other overdraft_system) =
       [Finished (Ok resp);
        Finished (Raise (ConditionError (NotEnoughFunds (dZ 100) (dZ 0))))]) ∧
  Forall finished_ok (sys_tasks (sys_run read_read_update_update overdraft_system)) ∧
  balance (sys_db (sys_run read_read_update_update overdraft_system)) 1 =
    Some (dZ (-100)).
Proof.
  destruct (concurrent_debits_overdraw scenario_db 1 2
              (Q2Qc (inject_Z 100)) (Q2Qc (inject_Z 100))
              (Account AccountType.USER (dZ 100)) (Account AccountType.USER (dZ 0)))
    as ([resp Hseq] & _ & _ & _ & Hall & Hbal & _);
    [lia | reflexivity | reflexivity | reflexivity | reflexivity
     | vm_compute; discriminate | vm_compute; reflexivity |].
  change overdraft_system with (two_debits scenario_db 1 2 (Q2Qc (inject_Z 100))).
  split; [| split].
  - exists resp. rewrite Hseq. reflexivity.
  - exact Hall.
  - rewrite Hbal. reflexivity.
Defined.

(* ===================================================================== *)
(*  Further properties of the handlers                                   *)
(* ===================================================================== *)

(* --------------------------------------------------------------------- *)
(*  Transfers: errors and what is left untouched                         *)
(* --------------------------------------------------------------------- *)

(** X1. Between distinct ids and with an amount that passes the minimum
    check, a transfer whose sender row is missing raises
    AccountNotFoundError('Sender is missing account'), also when the
    receiver is missing too; with the sender there and the receiver
    missing it raises AccountNotFoundError('Receiver is missing
    account').  The store is left as it was. *)
Theorem transfer_missing_account (d : db) (s r : Z) (a : decimal) :
  r ≠ s →
  PyDecimal.lt a PyDecimal.float_0_0009 = Ok false →
  (accounts d !! s = None →
   run (transfer s r a) d =
     (Raise (AccountNotFoundError (Msg "Sender is missing account")), d)) ∧
  (is_Some (accounts d !! s) → accounts d !! r = None →
   run (transfer s r a) d =
     (Raise (AccountNotFoundError (Msg "Receiver is missing account")), d)).
Proof.
  intros Hne Hlt.
  assert (∀ e,
    transfer_validate s r a (World d []) = (Raise e, World d []) →
    run (transfer s r a) d = (Raise e, d)) as Hrun.
  { intros e He. unfold run, transfer. by rewrite (bind_raise _ _ _ _ _ He). }
  assert (transfer_validate s r a (World d []) =
          (match accounts d !! s with
           | None => Raise (AccountNotFoundError (Msg "Sender is missing account"))
           | Some sender =>
               match accounts d !! r with
               | None => Raise (AccountNotFoundError (Msg "Receiver is missing account"))
               | Some receiver =>
                   match PyDecimal.gt a (acc_amount sender) with
                   | Ok true =>
                       Raise (ConditionError (NotEnoughFunds a (acc_amount sender)))
                   | Ok false => Ok (acc_amount sender, receiver)
                   | Raise e => Raise e
                   end
               end
           end, World d [])) as Hv.
  { unfold transfer_validate. rewrite decide_False by done.
    unfold bind at 1, lift at 1. rewrite Hlt.
    unfold bind at 1, Sql.select_accounts. rewrite statement_no_fault. cbn [fst snd].
    rewrite !by_account_id_select, !decide_True by auto.
    destruct (accounts d !! s) as [sender|]; [| reflexivity].
    destruct (accounts d !! r) as [receiver|]; [| reflexivity].
    unfold bind, lift. destruct (PyDecimal.gt a (acc_amount sender)) as [[]|]; done. }
  split.
  - intros Hs. apply Hrun. by rewrite Hv, Hs.
  - intros [sender Hs] Hr. apply Hrun. by rewrite Hv, Hs, Hr.
Qed.

Lemma transfer_missing_account_witness :
  run (transfer 7 2 (dZ 30)) scenario_db =
    (Raise (AccountNotFoundError (Msg "Sender is missing account")), scenario_db) ∧
  run (transfer 1 7 (dZ 30)) scenario_db =
    (Raise (AccountNotFoundError (Msg "Receiver is missing account")), scenario_db).
Proof.
  split.
  - apply (transfer_missing_account scenario_db 7 2 (dZ 30)); [lia | reflexivity ..].
  - apply (transfer_missing_account scenario_db 1 7 (dZ 30));
      [lia | reflexivity | by eexists | reflexivity].
Defined.

(** What a transfer does to the store, whatever its outcome and whatever
    the store fails. *)
Lemma transfer_outcome s r a w res w' :
  transfer s r a w = (res, w') →
  (store w' = store w ∧ succeeded res = false) ∨
  (store w' = Db (moved s r a (accounts (store w))) (wallets (store w))
                 (transactions (store w) ++ [Tx s r a]) ∧
   r ≠ s ∧
   res = match PyDecimal.sub
                 (default NaN (acc_amount <$> accounts (store w) !! s)) a,
               PyDecimal.add
                 (default NaN (acc_amount <$> accounts (store w) !! r)) a with
         | Ok x, Ok y => Ok (TransferResponse x y)
         | Raise e, _ | Ok _, Raise e => Raise e
         end ∧
   ∃ sender,
     accounts (store w) !! s = Some sender ∧
     is_Some (accounts (store w) !! r) ∧
     PyDecimal.lt a PyDecimal.float_0_0009 = Ok false ∧
     PyDecimal.gt a (acc_amount sender) = Ok false).
Proof.
  unfold transfer. unfold bind at 1.
  destruct (transfer_validate s r a w) as [[snapshot|e] w1] eqn:Hv.
  2: { intros [= <- <-]. left. split; [| done].
       eapply transfer_validate_reads, Hv. }
  apply transfer_validate_ok in Hv
    as (Hne & Hlt & Hst & sender & receiver & Hs & Hr & Hgt & ->).
  unfold bind at 1.
  destruct (transfer_commit s r a w1) as [[u|e] w2] eqn:Hc.
  2: { intros [= <- <-]. left. split; [| done].
       rewrite <- Hst. eapply transaction_rollback, Hc. }
  apply transfer_commit_ok in Hc. rewrite Hst in Hc.
  intros H. apply transfer_respond_inv in H as [-> ->].
  right. rewrite Hs, Hr. simpl. eauto 10.
Qed.

(** X2. A transfer is all or nothing, whatever the store fails: the store
    afterwards is either the store before, or the store with the amount
    moved and exactly one record appended to the log.  When it answers,
    the amount has been moved; when it raises and the amount is finite,
    nothing has changed. *)
Theorem transfer_all_or_nothing (w : world) (s r : Z) (a : decimal)
    (res : result transfer_response) (w' : world) :
  transfer s r a w = (res, w') →
  (store w' = store w ∨
   store w' = Db (moved s r a (accounts (store w))) (wallets (store w))
                 (transactions (store w) ++ [Tx s r a])) ∧
  (succeeded res = true →
   store w' = Db (moved s r a (accounts (store w))) (wallets (store w))
                 (transactions (store w) ++ [Tx s r a])) ∧
  (∀ q, a = Fin q → succeeded res = false → store w' = store w).
Proof.
  intros H. apply transfer_outcome in H as [[Hst Hres]|(Hst & _ & Hres & _)].
  - repeat split; [by left | by rewrite Hres | done].
  - repeat split; [by right | done |].
    intros q -> Hfail. exfalso. rewrite Hres in Hfail.
    destruct (py_sub_finite_ok
                (default NaN (acc_amount <$> accounts (store w) !! s)) q) as [x Hx].
    destruct (py_add_finite_ok
                (default NaN (acc_amount <$> accounts (store w) !! r)) q) as [y Hy].
    rewrite Hx, Hy in Hfail. discriminate Hfail.
Qed.

Lemma transfer_all_or_nothing_witness :
  store (transfer 1 2 (dZ 30) (World scenario_db [false; false; true])).2 = scenario_db.
Proof.
  apply (proj2 (proj2 (transfer_all_or_nothing
                         (World scenario_db [false; false; true]) 1 2 (dZ 30)
                         (transfer 1 2 (dZ 30) (World scenario_db [false; false; true])).1
                         (transfer 1 2 (dZ 30) (World scenario_db [false; false; true])).2
                         eq_refl))
           (Q2Qc (inject_Z 30)));
    reflexivity.
Defined.

(** X3. The answer is computed after the transaction has been committed.
    An infinite amount out of an infinite balance passes every check, is
    written to the store (the sender's balance becomes NaN there) and only
    then the subtraction for the answer raises InvalidOperation: the
    caller gets an error for a transfer that took place. *)
Theorem transfer_committed_then_raises (d : db) (s r : Z) (sender : account) :
  r ≠ s →
  accounts d !! s = Some sender →
  acc_amount sender = PInf →
  is_Some (accounts d !! r) →
  run (transfer s r PInf) d =
    (Raise InvalidOperation,
     Db (moved s r PInf (accounts d)) (wallets d) (transactions d ++ [Tx s r PInf])) ∧
  balance (run (transfer s r PInf) d).2 s = Some NaN.
Proof.
  intros Hne Hs Hinf [receiver Hr].
  assert (run (transfer s r PInf) d =
          (Raise InvalidOperation,
           Db (moved s r PInf (accounts d)) (wallets d)
              (transactions d ++ [Tx s r PInf]))) as Hrun.
  { unfold run, transfer.
    pose proof (transfer_validate_run s r PInf d sender receiver Hne eq_refl Hs Hr) as Hv.
    rewrite Hinf in Hv. cbn in Hv.
    rewrite (bind_ok _ _ _ _ _ Hv).
    rewrite (bind_ok _ _ _ _ _ (transfer_commit_run s r PInf d)).
    reflexivity. }
  split; [exact Hrun |].
  rewrite Hrun. unfold balance. cbn [snd accounts].
  rewrite moved_lookup_sender, Hs by done. simpl. by rewrite Hinf.
Qed.

Lemma transfer_committed_then_raises_witness :
  balance (run (transfer 1 2 PInf) bank_db).2 1 = Some NaN.
Proof.
  apply (transfer_committed_then_raises bank_db 1 2 (Account AccountType.TAXBANK PInf));
    [lia | reflexivity | reflexivity | by eexists].
Defined.

(** X4. Whatever its outcome and whatever the store fails, a transfer
    never touches the wallets, never adds or removes an account and never
    changes the type of one. *)
Theorem transfer_keeps_shape (w : world) (s r : Z) (a : decimal) :
  wallets (store (transfer s r a w).2) = wallets (store w) ∧
  dom (accounts (store (transfer s r a w).2)) = dom (accounts (store w)) ∧
  ∀ k, acc_type <$> accounts (store (transfer s r a w).2) !! k =
       acc_type <$> accounts (store w) !! k.
Proof.
  destruct (transfer s r a w) as [res w'] eqn:H. cbn [snd].
  apply transfer_outcome in H as [[-> _]|(-> & Hne & _)]; [done |].
  cbn [wallets accounts]. split; [done |]. split.
  - unfold moved. by rewrite !dom_alter_L.
  - intros k. unfold moved.
    destruct (decide (k = r)) as [->|Hr].
    { rewrite lookup_alter_eq, lookup_alter_ne by done.
      by destruct (accounts (store w) !! r). }
    rewrite lookup_alter_ne by done.
    destruct (decide (k = s)) as [->|Hs].
    { rewrite lookup_alter_eq. by destruct (accounts (store w) !! s). }
    by rewrite lookup_alter_ne.
Qed.

(** X5. The log is an audit trail of the successful transfers: a sequence
    of transfers that all succeed appends one record per transfer, with
    its sender, receiver and amount, in the order of the transfers, and
    nothing else. *)
Theorem transfers_logged (l : list (Z * Z * decimal)) (w : world)
    (resps : list transfer_response) (w' : world) :
  transfers l w = (Ok resps, w') →
  transactions (store w') =
    transactions (store w) ++ ((λ x, Tx x.1.1 x.1.2 x.2) <$> l) ∧
  length resps = length l.
Proof.
  revert w resps. induction l as [|[[s r] a] l IH]; intros w resps H.
  - injection H as <- <-. by rewrite app_nil_r.
  - apply transfers_cons_inv in H as (x & w1 & xs & H1 & H2 & ->).
    apply transfer_ok in H1 as (_ & _ & _ & _ & _ & _ & _ & _ & _ & Hst).
    destruct (IH _ _ H2) as [Hlog Hlen]. rewrite Hlog, Hst. cbn.
    rewrite <- app_assoc. split; [done | by rewrite Hlen].
Qed.

Lemma transfers_logged_witness :
  transactions
    (store (transfers [(1, 2, dZ 30); (2, 1, dZ 5)] (World scenario_db [])).2) =
    [Tx 1 2 (dZ 30); Tx 2 1 (dZ 5)].
Proof.
  apply (transfers_logged [(1, 2, dZ 30); (2, 1, dZ 5)] (World scenario_db [])
           (match (transfers [(1, 2, dZ 30); (2, 1, dZ 5)] (World scenario_db [])).1 with
            | Ok resps => resps
            | Raise _ => []
            end)).
  vm_compute. reflexivity.
Defined.

(** X6. A NaN amount is not refused as bad input: between distinct ids the
    comparison with the minimum raises decimal.InvalidOperation before the
    store is read; and with a NaN balance at the sender, the comparison
    with the balance raises it, the store being left as it was. *)
Theorem transfer_nan_raises (s r : Z) :
  r ≠ s →
  (∀ w, transfer s r NaN w = (Raise InvalidOperation, w)) ∧
  (∀ d a sender,
     PyDecimal.lt a PyDecimal.float_0_0009 = Ok false →
     accounts d !! s = Some sender →
     acc_amount sender = NaN →
     is_Some (accounts d !! r) →
     run (transfer s r a) d = (Raise InvalidOperation, d)).
Proof.
  intros Hne. split.
  - intros w. unfold transfer, bind, transfer_validate.
    rewrite decide_False by done. reflexivity.
  - intros d a sender Hlt Hs Hnan [receiver Hr]. unfold run, transfer.
    pose proof (transfer_validate_run s r a d sender receiver Hne Hlt Hs Hr) as Hv.
    rewrite Hnan in Hv.
    assert (PyDecimal.gt a NaN = Raise InvalidOperation) as Hgt
      by (unfold PyDecimal.gt; cbn; by rewrite orb_true_r).
    rewrite Hgt in Hv. by rewrite (bind_raise _ _ _ _ _ Hv).
Qed.

Lemma transfer_nan_raises_witness :
  transfer 1 2 NaN (World scenario_db []) = (Raise InvalidOperation, World scenario_db []).
Proof. apply (proj1 (transfer_nan_raises 1 2 ltac:(lia))). Defined.

(** X7. The minimum check comes before the accounts are read.  Between
    distinct ids, every finite amount below the double nearest to 0.0009
    (zero and everything negative included) and minus infinity raise
    InputError('Negative amounts are not allowed'), whether or not the
    accounts exist and whatever the store would do. *)
Theorem transfer_small_amount_refused (w : world) (s r : Z) :
  r ≠ s →
  (∀ q : Qc,
     (q < Q2Qc (8301034833169298 # 2 ^ 63))%Qc →
     transfer s r (Fin q) w =
       (Raise (InputError (Msg "Negative amounts are not allowed")), w)) ∧
  transfer s r NInf w =
    (Raise (InputError (Msg "Negative amounts are not allowed")), w).
Proof.
  intros Hne. split.
  - intros q Hq. apply transfer_below_float_rejected; [done |].
    apply Qclt_alt in Hq.
    change ((q ?= Q2Qc (8301034833169298 # 2 ^ 63))%Qc = Lt) in Hq.
    unfold PyDecimal.lt, PyDecimal.float_0_0009, dQ, PyDecimal.cmp, PyDecimal.is_nan.
    cbn [orb]. by rewrite Hq.
  - by apply transfer_below_float_rejected.
Qed.

Lemma transfer_small_amount_refused_witness :
  transfer 5 6 (dZ 0) (World empty_db []) =
    (Raise (InputError (Msg "Negative amounts are not allowed")), World empty_db []).
Proof.
  apply (proj1 (transfer_small_amount_refused (World empty_db []) 5 6 ltac:(lia))).
  reflexivity.
Defined.

(* --------------------------------------------------------------------- *)
(*  Transfers one after the other: balances and GDP                      *)
(* --------------------------------------------------------------------- *)

Lemma gt_false_le (q x : Qc) :
  PyDecimal.gt (Fin q) (Fin x) = Ok false → (q <= x)%Qc.
Proof.
  unfold PyDecimal.gt, PyDecimal.cmp. cbn [PyDecimal.is_nan orb].
  intros H. apply Qcle_alt. change ((q ?= x)%Qc ≠ Gt).
  intros Hgt. rewrite Hgt in H. discriminate H.
Qed.

Lemma transfer_keeps_solvent s r a w :
  solvent (store w) → solvent (store (transfer s r a w).2).
Proof.
  intros Hsol. destruct (transfer s r a w) as [res w'] eqn:H. cbn [snd].
  apply transfer_outcome in H
    as [[-> _]|(-> & Hne & _ & sender & Hs & [receiver Hr] & Hlt & Hgt)]; [done |].
  destruct (Hsol _ _ Hs) as (x & Hx & Hx0).
  destruct (Hsol _ _ Hr) as (y & Hy & Hy0).
  rewrite Hx in Hgt.
  destruct (checked_amount_finite _ _ Hlt Hgt) as [q ->].
  pose proof (passes_minimum_positive _ Hlt) as Hq.
  pose proof (gt_false_le _ _ Hgt) as Hqx.
  intros k b Hk. cbn [accounts] in Hk.
  destruct (decide (k = s)) as [->|Hks].
  { rewrite moved_lookup_sender, Hs in Hk by done. injection Hk as <-. simpl.
    rewrite Hx. simpl. eexists. split; [reflexivity |].
    by apply Qcle_minus_iff in Hqx. }
  destruct (decide (k = r)) as [->|Hkr].
  { rewrite moved_lookup_receiver, Hr in Hk by done. injection Hk as <-. simpl.
    rewrite Hy. simpl. eexists. split; [reflexivity |].
    apply Qcplus_nonneg_nonneg; [done | by apply Qclt_le_weak]. }
  rewrite moved_lookup_other in Hk by done. by apply (Hsol k).
Qed.

(** X8. One after the other, transfers never drive a balance negative:
    if every balance is a finite non-negative number, it still is after
    any sequence of transfers, whichever of them succeed and whatever the
    store fails. *)
Theorem transfers_keep_solvent (l : list (Z * Z * decimal)) (w : world) :
  solvent (store w) → solvent (store (transfers l w).2).
Proof.
  revert w. induction l as [|[[s r] a] l IH]; intros w Hsol; [done |].
  pose proof (transfer_keeps_solvent s r a w Hsol) as H1.
  cbn [transfers]. unfold bind at 1.
  destruct (transfer s r a w) as [[x|e] w1]; cbn [snd] in *; [| done].
  specialize (IH w1 H1). unfold bind at 1.
  destruct (transfers l w1) as [[xs|e] w2]; cbn [snd] in *; done.
Qed.

Lemma transfers_keep_solvent_witness :
  solvent
    (store (transfers [(1, 2, dZ 30); (1, 2, dZ 1000); (2, 1, dZ 5)]
              (World scenario_db [])).2).
Proof.
  apply (transfers_keep_solvent [(1, 2, dZ 30); (1, 2, dZ 1000); (2, 1, dZ 5)]
           (World scenario_db [])).
  intros k a Hk. cbn [store] in Hk.
  destruct (decide (k = 1)) as [->|H1];
    [injection Hk as <-; by exists (Q2Qc (inject_Z 100)) |].
  destruct (decide (k = 2)) as [->|H2];
    [injection Hk as <-; by exists (Q2Qc (inject_Z 0)) |].
  unfold scenario_db in Hk. cbn [accounts] in Hk.
  rewrite !lookup_insert_ne, lookup_empty in Hk by done. discriminate Hk.
Defined.

(** The sum of all balances as SUM computes it. *)
Lemma numeric_sum_foldr (l : list decimal) :
  Numeric.sum l =
    match l with [] => None | _ => Some (foldr Numeric.add (dZ 0) l) end.
Proof.
  destruct l as [|x l]; [reflexivity |].
  unfold Numeric.sum. by rewrite foldl_add_foldr.
Qed.

(** Without infinite balances, GDP with NULL read as zero is the supply. *)
Lemma gdp_is_supply (d : db) :
  no_infinite d →
  or_zero (Numeric.sum (acc_amount <$> (map_to_list (accounts d)).*2)) = supply d.
Proof.
  intros Hfin. rewrite or_zero_sum. unfold supply, supply_of.
  rewrite map_fold_foldr.
  assert (Forall (λ x, is_infinite (acc_amount x.2) = false) (map_to_list (accounts d)))
    as Hall.
  { apply Forall_forall. intros [k a] Hin. apply elem_of_map_to_list in Hin.
    specialize (Hfin k). unfold infinite_balance, balance in Hfin.
    by rewrite Hin in Hfin. }
  induction Hall as [|[k a] l Ha _ IH]; [reflexivity |].
  cbn. cbn in Ha. rewrite <- IH. unfold counted. by rewrite Ha.
Qed.

Lemma transfers_keep_supply (l : list (Z * Z * decimal)) (w : world) resps w' :
  no_infinite (store w) →
  transfers l w = (Ok resps, w') →
  supply (store w') = supply (store w) ∧ no_infinite (store w') ∧
  dom (accounts (store w')) = dom (accounts (store w)).
Proof.
  revert w resps. induction l as [|[[s r] a] l IH]; intros w resps Hfin H.
  - by injection H as _ <-.
  - apply transfers_cons_inv in H as (x & w1 & xs & H1 & H2 & _).
    assert (dom (accounts (store w1)) = dom (accounts (store w))) as Hdom.
    { pose proof H1 as Hok.
      apply transfer_ok in Hok as (_ & _ & _ & _ & _ & _ & _ & _ & _ & ->).
      cbn [accounts]. unfold moved. by rewrite !dom_alter_L. }
    destruct (transfer_conserves _ _ _ _ _ _ H1 (Hfin s) (Hfin r)) as [Hsup Hinf].
    assert (no_infinite (store w1)) as Hfin1 by (intros k; by rewrite Hinf).
    destruct (IH _ _ Hfin1 H2) as (Hsup' & Hfin' & Hdom').
    split; [congruence |]. split; [done | congruence].
Qed.

(** X9. What GET /api/gdp reports as the GDP is conserved: on a store
    without infinite balances, the sum of all balances is the same after
    any sequence of successful transfers as before. *)
Theorem transfers_keep_gdp (l : list (Z * Z * decimal)) (w : world)
    (resps : list transfer_response) (w' : world) :
  no_infinite (store w) →
  transfers l w = (Ok resps, w') →
  reported_gdp (store w') = reported_gdp (store w).
Proof.
  intros Hfin H.
  destruct (transfers_keep_supply l w resps w' Hfin H) as (Hsup & Hfin' & Hdom).
  unfold reported_gdp, get_gdp_handler. rewrite !get_sums_run. cbn.
  pose proof (gdp_is_supply _ Hfin) as Hg.
  pose proof (gdp_is_supply _ Hfin') as Hg'.
  rewrite !numeric_sum_foldr. rewrite !or_zero_sum in Hg, Hg'.
  assert (map_to_list (accounts (store w')) = [] ↔ map_to_list (accounts (store w)) = [])
    as Hnil.
  { rewrite !map_to_list_empty_iff, <- !dom_empty_iff_L. by rewrite Hdom. }
  destruct (map_to_list (accounts (store w'))) as [|x' l'] eqn:E';
    destruct (map_to_list (accounts (store w))) as [|x0 l0] eqn:E0.
  - reflexivity.
  - destruct Hnil as [Hnil _]. by specialize (Hnil eq_refl).
  - destruct Hnil as [_ Hnil]. by specialize (Hnil eq_refl).
  - f_equal. congruence.
Qed.

Lemma transfers_keep_gdp_witness :
  reported_gdp (store (transfers [(1, 2, dZ 30); (2, 1, dZ 5)] (World scenario_db [])).2) =
  reported_gdp scenario_db.
Proof.
  apply (transfers_keep_gdp [(1, 2, dZ 30); (2, 1, dZ 5)] (World scenario_db [])
           (match (transfers [(1, 2, dZ 30); (2, 1, dZ 5)] (World scenario_db [])).1 with
            | Ok resps => resps
            | Raise _ => []
            end)).
  - intros k. unfold infinite_balance, balance. cbn [store].
    destruct (decide (k = 1)) as [->|H1]; [reflexivity |].
    destruct (decide (k = 2)) as [->|H2]; [reflexivity |].
    unfold scenario_db. cbn [accounts].
    by rewrite !lookup_insert_ne, lookup_empty.
  - vm_compute. reflexivity.
Defined.

(* --------------------------------------------------------------------- *)
(*  The steal counters over many requests and under store failures       *)
(* --------------------------------------------------------------------- *)

Lemma inc_steal_counter_eq (c : counter) (id : Z) :
  inc_steal_counter c id = inc_steal (bump_of c) id.
Proof. by destruct c. Qed.

Lemma bump_of_user_id (c : counter) (w : wallet) : user_id (bump_of c w) = user_id w.
Proof. by destruct c. Qed.

Lemma has_wallet_bumped (c : counter) (id : Z) (d : db) :
  has_wallet (bumped (bump_of c) id d) id = has_wallet d id.
Proof.
  unfold has_wallet, bumped. cbn [wallets]. apply bool_decide_ext.
  rewrite Exists_fmap.
  split; intros H; apply (Exists_impl _ _ _ H); intros w; cbn;
    destruct (decide (user_id w = id)) as [Hw|Hw]; try done;
    by rewrite bump_of_user_id.
Qed.

Lemma bumped_by_zero (id : Z) (d : db) : bumped_by 0 0 id d = d.
Proof.
  destruct d as [acs ws txs]. unfold bumped_by. cbn [accounts wallets transactions].
  f_equal. rewrite <- (list_fmap_id ws) at 2. apply list_fmap_ext.
  intros i [u t su ss] _. cbn. destruct (decide (u = id)); [| done].
  f_equal; lia.
Qed.

Lemma bumped_by_bumped (c : counter) (u s : Z) (id : Z) (d : db) :
  bumped_by u s id (bumped (bump_of c) id d) =
    bumped_by ((if same_counter Uses c then 1 else 0) + u)
              ((if same_counter Success c then 1 else 0) + s) id d.
Proof.
  unfold bumped_by, bumped. cbn [accounts wallets transactions]. f_equal.
  rewrite <- list_fmap_compose. apply list_fmap_ext. intros i w _. cbn.
  destruct (decide (user_id w = id)) as [Hw|Hw].
  - rewrite decide_True by (by rewrite bump_of_user_id).
    destruct c; cbn; f_equal; lia.
  - by rewrite decide_False.
Qed.

Lemma steal_requests_run (cs : list counter) (id : Z) (d : db) :
  has_wallet d id = true →
  steal_requests cs id (World d []) =
    (Ok (replicate (length cs) true),
     World (bumped_by (count_of Uses cs) (count_of Success cs) id d) []).
Proof.
  revert d. induction cs as [|c cs IH]; intros d Hw.
  - cbn. by rewrite bumped_by_zero.
  - cbn [steal_requests]. unfold bind at 1.
    rewrite inc_steal_counter_eq, inc_steal_run, Hw.
    unfold bind at 1. rewrite IH by (by rewrite has_wallet_bumped).
    cbn [ret length replicate count_of]. by rewrite bumped_by_bumped.
Qed.

(** X10. The counter endpoints accumulate and do not disturb each other:
    any run of requests to [steal_use] and [steal_success] of a user with
    a wallet row answers [true] every time and leaves [steal_uses] raised
    by the number of [steal_use] requests and [steal_success] by the
    number of [steal_success] requests, in whatever order they came;
    other wallets, the accounts and the transaction log are untouched. *)
Theorem steal_requests_accumulate (cs : list counter) (id : Z) (d : db) :
  has_wallet d id = true →
  run (steal_requests cs id) d =
    (Ok (replicate (length cs) true),
     bumped_by (count_of Uses cs) (count_of Success cs) id d).
Proof.
  intros Hw. unfold run. by rewrite steal_requests_run.
Qed.

Lemma steal_requests_accumulate_witness :
  run (steal_requests [Uses; Success; Uses] 1) scenario_db =
    (Ok [true; true; true], bumped_by 2 1 1 scenario_db).
Proof.
  apply (steal_requests_accumulate [Uses; Success; Uses] 1 scenario_db).
  reflexivity.
Defined.

(** Either counter handler in any world: it fails only when the store
    fails its one statement. *)
Lemma inc_steal_world (bump : wallet → wallet) (id : Z) (w : world) :
  inc_steal bump id w =
    match faults w with
    | true :: fs => (Raise StoreError, World (store w) fs)
    | _ =>
        (Ok (has_wallet (store w) id),
         World (if has_wallet (store w) id then bumped bump id (store w) else store w)
               (tail (faults w)))
    end.
Proof.
  destruct w as [d [|[] fs]]; cbn [faults store tail]; [| reflexivity |].
  - apply inc_steal_run.
  - unfold inc_steal, transaction.
    unfold bind at 1, Sql.update_wallets, statement. cbn [faults store fst snd].
    unfold bind at 1, lift at 1. rewrite words_update. cbn [Tag.unpack2 snd].
    unfold bind, lift. rewrite int_of_nat. unfold has_wallet.
    destruct (decide (length (filter (λ w, user_id w = id) (wallets d)) ≠ 0%nat))
      as [Hn|Hn]; simpl.
    + rewrite bool_decide_eq_true_2 by (by apply matched_rows_Exists). reflexivity.
    + rewrite bool_decide_eq_false_2 by (by rewrite <- matched_rows_Exists).
      rewrite unmatched_rows_kept by (by rewrite <- matched_rows_Exists).
      destruct d; reflexivity.
Qed.

(** X11. Whatever the store fails, a counter request has one of two
    outcomes: it answers whether a wallet row matched, with the matching
    rows bumped in its own counter, or it raises the store's error and
    leaves the store as it was.  It never fails on reading the command
    tag. *)
Theorem inc_steal_under_failures (c : counter) (id : Z) (w : world) :
  ((inc_steal_counter c id w).1 = Ok (has_wallet (store w) id) ∧
   store (inc_steal_counter c id w).2 =
     if has_wallet (store w) id then bumped (bump_of c) id (store w) else store w) ∨
  ((inc_steal_counter c id w).1 = Raise StoreError ∧
   store (inc_steal_counter c id w).2 = store w).
Proof.
  rewrite inc_steal_counter_eq, inc_steal_world.
  destruct (faults w) as [|[] fs]; cbn [fst snd store]; auto.
Qed.

(* --------------------------------------------------------------------- *)
(*  Reading a wallet after a write                                       *)
(* --------------------------------------------------------------------- *)

Lemma no_rows_matched (id : Z) (l : list wallet) :
  (∀ w, w ∈ l → user_id w ≠ id) → filter (λ w, user_id w = id) l = [].
Proof.
  induction l as [|w l IH]; intros Hno; [reflexivity |].
  rewrite filter_cons, decide_False by (apply Hno; left).
  apply IH. intros w' Hin. apply Hno. by right.
Qed.

(** [get_wallet] on a store that does not fail. *)
Lemma get_wallet_run (d : db) (k : Z) :
  run (get_wallet k) d =
    (match accounts d !! k with
     | None => Raise (AccountNotFoundError (Msg "Account not found"))
     | Some a =>
         if decide (acc_type a = AccountType.USER) then
           match head (filter (λ w, user_id w = k) (wallets d)) with
           | None => Raise TypeError
           | Some w =>
               Ok (AccountView k (acc_type a) (acc_amount a)
                     (Some (taxpaid w, steal_uses w, steal_success w)))
           end
         else Ok (AccountView k (acc_type a) (acc_amount a) None)
     end, d).
Proof.
  unfold run, get_wallet.
  unfold bind at 1, Sql.select_account. rewrite statement_no_fault. cbn [fst snd].
  destruct (accounts d !! k) as [a|]; [| reflexivity]. cbn [fmap option_fmap option_map].
  destruct (decide (acc_type a = AccountType.USER)); [| reflexivity].
  unfold bind, Sql.select_wallet. rewrite statement_no_fault. cbn [fst snd].
  by destruct (head (filter (λ w, user_id w = k) (wallets d))).
Qed.

(** X12. An account that was just created can be read back: for a fresh
    id without a stale wallet row, [get_wallet] after [create_account]
    answers the account with its type and the default balance, merged
    with the default wallet columns when the type is USER and without
    them otherwise; what [get_wallet] gives for every other id is as
    before. *)
Theorem create_account_then_get_wallet (d : db) (id ty : Z) :
  accounts d !! id = None →
  (∀ w, w ∈ wallets d → user_id w ≠ id) →
  (run (get_wallet id) (run (create_account id ty) d).2).1 =
    Ok (AccountView id ty default_amount
          (if decide (ty = AccountType.USER)
           then Some (taxpaid (default_wallet id), steal_uses (default_wallet id),
                      steal_success (default_wallet id))
           else None)) ∧
  ∀ k, k ≠ id →
    (run (get_wallet k) (run (create_account id ty) d).2).1 = (run (get_wallet k) d).1.
Proof.
  intros Hfresh Hnone. rewrite create_account_run by done. cbn [snd].
  assert (filter (λ w, user_id w = id) (wallets d) = []) as Hstale.
  { apply no_rows_matched. intros w Hin. by apply Hnone. }
  split.
  - rewrite get_wallet_run. cbn [fst accounts wallets].
    rewrite lookup_insert_eq. cbn [acc_type acc_amount].
    change AccountType.USER with 0.
    destruct (decide (ty = 0)) as [->|Hty]; [| reflexivity].
    rewrite filter_app, Hstale. cbn [app].
    rewrite filter_cons, decide_True by reflexivity. reflexivity.
  - intros k Hk. rewrite !get_wallet_run. cbn [fst accounts wallets].
    rewrite lookup_insert_ne by done.
    destruct (accounts d !! k) as [a|]; [| reflexivity].
    destruct (decide (acc_type a = AccountType.USER)); [| reflexivity].
    destruct (decide (ty = 0)); [| reflexivity].
    rewrite filter_app, filter_cons, decide_False by (cbn; congruence).
    rewrite filter_nil, app_nil_r. reflexivity.
Qed.

Lemma create_account_then_get_wallet_witness :
  (run (get_wallet 3) (run (create_account 3 AccountType.USER) scenario_db).2).1 =
    Ok (AccountView 3 AccountType.USER default_amount (Some (dZ 0, 0, 0))).
Proof.
  apply (create_account_then_get_wallet scenario_db 3 AccountType.USER).
  - reflexivity.
  - intros w Hin. cbn [scenario_db wallets] in Hin.
    apply elem_of_cons in Hin as [->|Hin]; [cbn; lia |].
    apply list_elem_of_singleton in Hin as ->. cbn. lia.
Defined.

(** X13. A successful transfer can be read back: afterwards [get_wallet]
    answers for the sender what it answered before with the amount
    lowered by exactly the amount sent, for the receiver the same with
    the amount raised by it, and for every other id what it answered
    before; type and wallet columns are unchanged, and an id for which it
    raised before raises the same error. *)
Theorem transfer_then_get_wallet (d : db) (s r : Z) (a : decimal)
    (resp : transfer_response) (d' : db) :
  run (transfer s r a) d = (Ok resp, d') →
  (run (get_wallet s) d').1 =
    on_answer (with_amount (λ x, Numeric.sub x a)) (run (get_wallet s) d).1 ∧
  (run (get_wallet r) d').1 =
    on_answer (with_amount (λ x, Numeric.add x a)) (run (get_wallet r) d).1 ∧
  ∀ k, k ≠ s → k ≠ r → (run (get_wallet k) d').1 = (run (get_wallet k) d).1.
Proof.
  intros H. apply run_inv in H as (w' & H & <-).
  apply transfer_ok in H as (Hne & _ & sender & receiver & Hs & Hr & _ & _ & _ & ->).
  cbn [store] in *. rewrite !get_wallet_run. cbn [fst accounts wallets].
  split; [| split].
  - rewrite moved_lookup_sender, Hs by done. cbn.
    destruct (decide (acc_type sender = AccountType.USER)); [| reflexivity].
    by destruct (head (filter (λ w, user_id w = s) (wallets d))).
  - rewrite moved_lookup_receiver, Hr by done. cbn.
    destruct (decide (acc_type receiver = AccountType.USER)); [| reflexivity].
    by destruct (head (filter (λ w, user_id w = r) (wallets d))).
  - intros k Hks Hkr. rewrite !get_wallet_run. cbn [fst accounts wallets].
    by rewrite moved_lookup_other.
Qed.

Lemma transfer_then_get_wallet_witness :
  (run (get_wallet 1) (run (transfer 1 2 (dZ 30)) scenario_db).2).1 =
    on_answer (with_amount (λ x, Numeric.sub x (dZ 30)))
      (run (get_wallet 1) scenario_db).1.
Proof.
  apply (transfer_then_get_wallet scenario_db 1 2 (dZ 30)
           (match (run (transfer 1 2 (dZ 30)) scenario_db).1 with
            | Ok resp => resp
            | Raise _ => TransferResponse NaN NaN
            end)
           (run (transfer 1 2 (dZ 30)) scenario_db).2).
  vm_compute. reflexivity.
Defined.

(* --------------------------------------------------------------------- *)
(*  Counts, GDP and stats                                                *)
(* --------------------------------------------------------------------- *)

Lemma get_counts_run (d : db) :
  run get_counts d =
    (Ok (Counts
           (length (map_to_list (accounts d)).*2)
           (length (filter (λ a, acc_type a = AccountType.USER)
                      (map_to_list (accounts d)).*2))
           (length (filter (λ a, acc_type a = AccountType.TAXBANK)
                      (map_to_list (accounts d)).*2))),
     d).
Proof. reflexivity. Qed.

Lemma typed_rows_le (l : list account) :
  (length (filter (λ a, acc_type a = AccountType.USER) l) +
   length (filter (λ a, acc_type a = AccountType.TAXBANK) l) ≤ length l)%nat.
Proof.
  induction l as [|a l IH]; [done |].
  rewrite !filter_cons.
  destruct (decide (acc_type a = AccountType.USER)) as [Hu|Hu];
    destruct (decide (acc_type a = AccountType.TAXBANK)) as [Ht|Ht]; cbn; try lia.
  rewrite Hu in Ht. discriminate Ht.
Qed.

Lemma typed_rows_eq (l : list account) :
  Forall (λ a, acc_type a = AccountType.USER ∨ acc_type a = AccountType.TAXBANK) l →
  (length (filter (λ a, acc_type a = AccountType.USER) l) +
   length (filter (λ a, acc_type a = AccountType.TAXBANK) l) = length l)%nat.
Proof.
  induction 1 as [|a l Hty _ IH]; [done |].
  rewrite !filter_cons.
  destruct Hty as [Hty|Hty]; rewrite Hty.
  - rewrite decide_True by done.
    rewrite (decide_False (P := AccountType.USER = AccountType.TAXBANK)) by done.
    cbn. lia.
  - rewrite (decide_False (P := AccountType.TAXBANK = AccountType.USER)) by done.
    rewrite decide_True by done. cbn. lia.
Qed.

(** X14. The counts of GET /api/stats fit together: [accounts] is the
    number of account rows, the user and tax bank counts together never
    exceed it, and they add up to it exactly when every account is of
    type USER or TAXBANK.  The store is only read. *)
Theorem get_counts_consistent (d : db) :
  ∃ c, run get_counts d = (Ok c, d) ∧
    count_accounts c = size (accounts d) ∧
    (count_user_accounts c + count_txb_accounts c ≤ count_accounts c)%nat ∧
    ((∀ k a, accounts d !! k = Some a →
        acc_type a = AccountType.USER ∨ acc_type a = AccountType.TAXBANK) →
     (count_user_accounts c + count_txb_accounts c = count_accounts c)%nat).
Proof.
  eexists. split; [apply get_counts_run |].
  cbn [count_accounts count_user_accounts count_txb_accounts].
  split; [| split].
  - by rewrite length_fmap, length_map_to_list.
  - apply typed_rows_le.
  - intros Hty. apply typed_rows_eq.
    apply Forall_fmap, Forall_forall. intros [k a] Hin.
    apply elem_of_map_to_list in Hin. cbn. by apply (Hty k).
Qed.

(** The rows of the accounts table after a fresh insert. *)
Lemma rows_after_insert (m : gmap Z account) (id : Z) (a : account) :
  m !! id = None →
  (map_to_list (<[id := a]> m)).*2 ≡ₚ a :: (map_to_list m).*2.
Proof.
  intros Hfresh. rewrite map_to_list_insert by done. by rewrite fmap_cons.
Qed.

(** X15. Creating an account on a fresh id raises the number of accounts
    by one, the count of its own type by one when that type is USER or
    TAXBANK, and no other count. *)
Theorem create_account_counts (d : db) (id ty : Z) (c : counts) :
  accounts d !! id = None →
  reported_counts d = Some c →
  reported_counts (run (create_account id ty) d).2 =
    Some (Counts (S (count_accounts c))
            (count_user_accounts c + if decide (ty = AccountType.USER) then 1 else 0)
            (count_txb_accounts c + if decide (ty = AccountType.TAXBANK) then 1 else 0)).
Proof.
  intros Hfresh Hc. rewrite create_account_run by done. cbn [snd].
  unfold reported_counts in *. rewrite get_counts_run in *. cbn [fst accounts] in *.
  injection Hc as <-.
  cbn [count_accounts count_user_accounts count_txb_accounts].
  pose proof (rows_after_insert (accounts d) id (Account ty default_amount) Hfresh)
    as Hrows.
  rewrite !Hrows. rewrite !filter_cons. cbn [acc_type].
  do 2 f_equal.
  - destruct (decide (ty = AccountType.USER)); cbn; lia.
  - destruct (decide (ty = AccountType.TAXBANK)); cbn; lia.
Qed.

Lemma create_account_counts_witness :
  reported_counts (run (create_account 3 AccountType.TAXBANK) scenario_db).2 =
    Some (Counts 3 2 1).
Proof.
  apply (create_account_counts scenario_db 3 AccountType.TAXBANK (Counts 2 2 0)).
  - reflexivity.
  - vm_compute. reflexivity.
Defined.

Lemma sum_permutation (l l' : list decimal) :
  l ≡ₚ l' → foldr Numeric.add (dZ 0) l = foldr Numeric.add (dZ 0) l'.
Proof.
  induction 1 as [|x l l' _ IH|x y l|l l' l'' _ IH _ IH']; cbn [foldr].
  - reflexivity.
  - by rewrite IH.
  - rewrite !numeric_add_assoc. f_equal. apply numeric_add_comm.
  - by rewrite IH.
Qed.

(** X16. Creating an account mints nothing beyond the column default:
    after [create_account] on a fresh id, the GDP that GET /api/gdp
    reports is the GDP before, a sum over no rows counting as zero, plus
    the default balance of the new row. *)
Theorem create_account_gdp (d : db) (id ty : Z) :
  accounts d !! id = None →
  reported_gdp (run (create_account id ty) d).2 =
    Some (Numeric.add default_amount (or_zero (reported_gdp d))).
Proof.
  intros Hfresh. rewrite create_account_run by done. cbn [snd].
  unfold reported_gdp, get_gdp_handler. rewrite !get_sums_run. cbn [fst gdp accounts].
  rewrite or_zero_sum, numeric_sum_foldr.
  pose proof (rows_after_insert (accounts d) id (Account ty default_amount) Hfresh)
    as Hrows.
  assert (acc_amount <$> (map_to_list (<[id := Account ty default_amount]> (accounts d))).*2
          ≡ₚ default_amount :: (acc_amount <$> (map_to_list (accounts d)).*2)) as Hsum
    by (by rewrite Hrows).
  destruct (acc_amount <$> (map_to_list (<[id := Account ty default_amount]> (accounts d))).*2)
    as [|x l] eqn:E.
  - apply Permutation_nil_l in Hsum. discriminate Hsum.
  - f_equal. by rewrite (sum_permutation _ _ Hsum).
Qed.

Lemma create_account_gdp_witness :
  reported_gdp (run (create_account 3 AccountType.USER) scenario_db).2 =
    Some (Numeric.add default_amount (or_zero (reported_gdp scenario_db))).
Proof.
  apply (create_account_gdp scenario_db 3 AccountType.USER). reflexivity.
Defined.

Lemma get_stats_run (d : db) :
  run get_stats_handler d =
    (Ok (Stats
           (Numeric.sum (acc_amount <$> (map_to_list (accounts d)).*2))
           (length (map_to_list (accounts d)).*2)
           (length (filter (λ a, acc_type a = AccountType.USER)
                      (map_to_list (accounts d)).*2))
           (length (filter (λ a, acc_type a = AccountType.TAXBANK)
                      (map_to_list (accounts d)).*2))
           (Numeric.sum
              (acc_amount <$>
                 filter (λ a, acc_type a = AccountType.USER) (map_to_list (accounts d)).*2))
           (Numeric.sum
              (acc_amount <$>
                 filter (λ a, acc_type a = AccountType.TAXBANK) (map_to_list (accounts d)).*2))
           (SqlStats.int_sum (steal_uses <$> wallets d))
           (SqlStats.int_sum (steal_success <$> wallets d))),
     d).
Proof. reflexivity. Qed.

Lemma int_sum_foldr (l : list Z) :
  l ≠ [] → SqlStats.int_sum l = Some (foldr Z.add 0 l).
Proof. by destruct l. Qed.

Lemma bumped_counter_sum (c : counter) (id : Z) (ws : list wallet) :
  let ws' := (λ w, if decide (user_id w = id) then bump_of c w else w) <$> ws in
  foldr Z.add 0 (steal_uses <$> ws') =
    foldr Z.add 0 (steal_uses <$> ws) +
    (if same_counter Uses c
     then Z.of_nat (length (filter (λ w, user_id w = id) ws)) else 0) ∧
  foldr Z.add 0 (steal_success <$> ws') =
    foldr Z.add 0 (steal_success <$> ws) +
    (if same_counter Success c
     then Z.of_nat (length (filter (λ w, user_id w = id) ws)) else 0).
Proof.
  induction ws as [|w ws [IHu IHs]]; [by destruct c |].
  cbn zeta in *. rewrite !fmap_cons, filter_cons. cbn [foldr]. rewrite IHu, IHs.
  destruct (decide (user_id w = id)); destruct c; cbn [same_counter bump_of length];
    cbn; lia.
Qed.

(** X17. The counter endpoints show in GET /api/stats: after a request
    to [steal_use] of a user with a wallet row, [steals] is higher by the
    number of that user's wallet rows and everything else in the stats is
    as before; after a request to [steal_success] the same holds of
    [success]. *)
Theorem steal_shows_in_stats (c : counter) (d : db) (id : Z) :
  has_wallet d id = true →
  (run get_stats_handler (run (inc_steal_counter c id) d).2).1 =
    on_answer (stats_raised c (Z.of_nat (wallet_rows d id)))
      (run get_stats_handler d).1.
Proof.
  intros Hw. unfold run at 2. rewrite inc_steal_counter_eq, inc_steal_run, Hw.
  cbn [snd store]. rewrite !get_stats_run. cbn [fst on_answer].
  unfold bumped. cbn [accounts wallets].
  assert (wallets d ≠ []) as Hne.
  { unfold has_wallet in Hw. apply bool_decide_eq_true_1 in Hw.
    intros E. rewrite E in Hw. inversion Hw. }
  destruct (bumped_counter_sum c id (wallets d)) as [Hu Hs]. cbn zeta in Hu, Hs.
  rewrite !int_sum_foldr; [| by destruct (wallets d) .. ].
  rewrite Hu, Hs. unfold wallet_rows.
  destruct c; cbn [stats_raised same_counter default stats_steals stats_success
                   stats_gdp stats_accounts stats_user_accounts stats_txb_accounts
                   stats_user_money stats_txb_money]; by rewrite Z.add_0_r.
Qed.

Lemma steal_shows_in_stats_witness :
  (run get_stats_handler (run (inc_steal_counter Uses 1) scenario_db).2).1 =
    on_answer (stats_raised Uses 1) (run get_stats_handler scenario_db).1.
Proof.
  apply (steal_shows_in_stats Uses scenario_db 1). reflexivity.
Defined.

(* --------------------------------------------------------------------- *)
(*  Concurrent requests cannot create money                              *)
(* --------------------------------------------------------------------- *)

Lemma moved_all_finite s r (q : Qc) (d : db) txs :
  all_finite d →
  all_finite (Db (moved s r (Fin q) (accounts d)) (wallets d) txs).
Proof.
  intros Hfin k b Hk. cbn [accounts] in Hk. unfold moved in Hk.
  assert (∀ i c k' f, (∀ x y, acc_amount x = Fin y → ∃ z, acc_amount (f x) = Fin z) →
            alter f k' (accounts d) !! i = Some c → ∃ z, acc_amount c = Fin z) as Hone.
  { intros i c k' f Hf Hc. destruct (decide (i = k')) as [Ek|Hk'].
    - subst k'. rewrite lookup_alter_eq in Hc.
      destruct (accounts d !! i) as [x|] eqn:E; [| discriminate Hc].
      destruct (Hfin _ _ E) as [y Hy]. injection Hc as <-. by apply (Hf x y).
    - rewrite lookup_alter_ne in Hc by done. by apply (Hfin i). }
  destruct (decide (k = r)) as [Er|Hr].
  - subst k. rewrite lookup_alter_eq in Hk.
    destruct (alter (λ x, Account (acc_type x) (Numeric.sub (acc_amount x) (Fin q))) s
                (accounts d) !! r) as [x|] eqn:E; [| discriminate Hk].
    apply Hone in E as [z Hz]; [| intros x' y' Hy'; cbn; rewrite Hy'; cbn; eauto].
    injection Hk as <-. cbn. rewrite Hz. cbn. eauto.
  - rewrite lookup_alter_ne in Hk by done.
    apply Hone in Hk; [done |]. intros x' y' Hy'. cbn. rewrite Hy'. cbn. eauto.
Qed.

(** One step of the server keeps the supply and what the checks have
    established. *)
Lemma sound_system_step (σ σ' : system) :
  sound_system σ → sys_step σ σ' →
  supply (sys_db σ') = supply (sys_db σ) ∧ sound_system σ'.
Proof.
  intros [Hfin Hts] Hstep. destruct Hstep as [σ i t Hi Hrun].
  pose proof (proj1 (Forall_lookup _ _) Hts i t Hi) as Ht.
  destruct t as [s r a|s r a sa ra|res]; [| | discriminate Hrun].
  - cbn [task_step].
    destruct (run (transfer_validate s r a) (sys_db σ)) as [[snapshot|e] d'] eqn:E;
      apply run_inv in E as (w' & E & <-);
      pose proof (transfer_validate_reads _ _ _ _ _ _ E) as Hd;
      cbn [store] in Hd; cbn [fst snd sys_db sys_tasks]; rewrite Hd.
    + split; [reflexivity |]. split; [done |].
      apply Forall_insert; [done |].
      apply transfer_validate_ok in E
        as (Hne & Hlt & _ & sender & receiver & Hs & Hr & Hgt & _).
      cbn [store] in Hs, Hr.
      destruct (Hfin _ _ Hs) as [x Hx]. rewrite Hx in Hgt.
      cbn [sound_task]. repeat split; [done | | by eexists | by eexists].
      by apply (checked_amount_finite _ x).
    + split; [reflexivity |]. split; [done |].
      by apply Forall_insert.
  - cbn [sound_task] in Ht. destruct Ht as (Hne & [q ->] & [sender Hs] & [receiver Hr]).
    destruct (task_step_validated (sys_db σ) s r q sa ra) as [resp ->].
    cbn [fst snd sys_db sys_tasks].
    destruct (Hfin _ _ Hs) as [x Hx]. destruct (Hfin _ _ Hr) as [y Hy].
    split; [| split].
    + unfold supply. cbn [accounts].
      destruct sender as [tys sa']. cbn in Hx. subst sa'.
      apply (moved_supply s r q x _ tys receiver); [done .. |].
      by rewrite Hy.
    + by apply moved_all_finite.
    + apply Forall_insert; [| done].
      apply (Forall_impl _ _ _ Hts). intros [s' r' a'|s' r' a' sa' ra'|res'];
        cbn [sound_task accounts]; [done | | done].
      intros (? & ? & ? & ?); repeat split; try done; by apply moved_is_Some.
Qed.

Lemma sound_system_steps (σ σ' : system) :
  rtc sys_step σ σ' → sound_system σ →
  supply (sys_db σ') = supply (sys_db σ) ∧ sound_system σ'.
Proof.
  induction 1 as [σ|σ σ1 σ' Hstep _ IH]; intros Hinv; [done |].
  destruct (sound_system_step _ _ Hinv Hstep) as [Hsup Hinv1].
  destruct (IH Hinv1) as [Hsup' Hinv']. split; [congruence | done].
Qed.

(** X18. Concurrent transfers cannot create or destroy money.  Starting
    from a store whose balances are all finite and from requests none of
    which is between its checks and its transaction, however the server
    interleaves the requests, and whether or not they overdraw a sender,
    the supply stays what it was and every balance stays finite. *)
Theorem interleavings_conserve_supply (σ σ' : system) :
  all_finite (sys_db σ) →
  Forall not_validated (sys_tasks σ) →
  rtc sys_step σ σ' →
  supply (sys_db σ') = supply (sys_db σ) ∧ all_finite (sys_db σ').
Proof.
  intros Hfin Hts Hsteps.
  assert (sound_system σ) as Hinv.
  { split; [done |]. apply (Forall_impl _ _ _ Hts). by intros [| |]. }
  destruct (sound_system_steps _ _ Hsteps Hinv) as [Hsup [Hfin' _]]. done.
Qed.

Lemma interleavings_conserve_supply_witness :
  supply (sys_db (sys_run [0; 1; 0; 1]%nat overdraft_system)) = supply scenario_db ∧
  all_finite (sys_db (sys_run [0; 1; 0; 1]%nat overdraft_system)).
Proof.
  apply (interleavings_conserve_supply overdraft_system
           (sys_run [0; 1; 0; 1]%nat overdraft_system)).
  - intros k a Hk. cbn [overdraft_system sys_db] in Hk.
    destruct (decide (k = 1)) as [->|H1]; [injection Hk as <-; by eexists |].
    destruct (decide (k = 2)) as [->|H2]; [injection Hk as <-; by eexists |].
    unfold scenario_db in Hk. cbn [accounts] in Hk.
    rewrite !lookup_insert_ne, lookup_empty in Hk by done. discriminate Hk.
  - repeat constructor.
  - apply sys_run_rtc.
Defined.

(* --------------------------------------------------------------------- *)
(*  What no request does                                                 *)
(* --------------------------------------------------------------------- *)

Lemma reads_only_ret {A} (a : A) : reads_only (ret a).
Proof. by intros w. Qed.

Lemma reads_only_raise {A} (e : exn) : reads_only (raise (A := A) e).
Proof. by intros w. Qed.

Lemma reads_only_lift {A} (r : result A) : reads_only (lift r).
Proof. by intros w. Qed.

Lemma reads_only_bind {A B} (m : M A) (k : A → M B) :
  reads_only m → (∀ a, reads_only (k a)) → reads_only (bind m k).
Proof.
  intros Hm Hk w. unfold bind. specialize (Hm w).
  destruct (m w) as [[a|e] w1]; cbn [snd] in *; [| done].
  by rewrite Hk.
Qed.

Lemma reads_only_statement {A} (f : db → result A) :
  reads_only (statement (λ d, (f d, d))).
Proof. intros [d [|[] fs]]; reflexivity. Qed.

Lemma get_wallet_reads_only (id : Z) : reads_only (get_wallet id).
Proof.
  unfold get_wallet. apply reads_only_bind.
  { apply (reads_only_statement (λ d, Ok ((λ a, (id, a)) <$> accounts d !! id))). }
  intros [[k a]|]; [| apply reads_only_raise].
  destruct (decide (acc_type a = AccountType.USER)); [| apply reads_only_ret].
  apply reads_only_bind.
  { apply (reads_only_statement
             (λ d, Ok (head (filter (λ w, user_id w = id) (wallets d))))). }
  intros [w|]; [apply reads_only_ret | apply reads_only_raise].
Qed.

Lemma get_sums_reads_only : reads_only get_sums.
Proof.
  unfold get_sums.
  apply reads_only_bind;
    [apply (reads_only_statement
              (λ d, Ok (Numeric.sum (acc_amount <$> (map_to_list (accounts d)).*2)))) |].
  intros total.
  apply reads_only_bind;
    [apply (reads_only_statement
              (λ d, Ok (Numeric.sum
                          (acc_amount <$>
                             filter (λ a, acc_type a = AccountType.USER)
                               (map_to_list (accounts d)).*2)))) |].
  intros user'.
  apply reads_only_bind;
    [apply (reads_only_statement
              (λ d, Ok (Numeric.sum
                          (acc_amount <$>
                             filter (λ a, acc_type a = AccountType.TAXBANK)
                               (map_to_list (accounts d)).*2)))) |].
  intros txb. apply reads_only_ret.
Qed.

Lemma get_counts_reads_only : reads_only get_counts.
Proof.
  unfold get_counts.
  apply reads_only_bind;
    [apply (reads_only_statement (λ d, Ok (length (map_to_list (accounts d)).*2))) |].
  intros n.
  apply reads_only_bind;
    [apply (reads_only_statement
              (λ d, Ok (length (filter (λ a, acc_type a = AccountType.USER)
                                  (map_to_list (accounts d)).*2)))) |].
  intros u.
  apply reads_only_bind;
    [apply (reads_only_statement
              (λ d, Ok (length (filter (λ a, acc_type a = AccountType.TAXBANK)
                                  (map_to_list (accounts d)).*2)))) |].
  intros t. apply reads_only_ret.
Qed.

Lemma get_stats_reads_only : reads_only get_stats_handler.
Proof.
  unfold get_stats_handler.
  apply reads_only_bind; [apply get_sums_reads_only |]. intros s.
  apply reads_only_bind; [apply get_counts_reads_only |]. intros c.
  apply reads_only_bind;
    [apply (reads_only_statement (λ d, Ok (SqlStats.int_sum (steal_uses <$> wallets d)))) |].
  intros u.
  apply reads_only_bind;
    [apply (reads_only_statement
              (λ d, Ok (SqlStats.int_sum (steal_success <$> wallets d)))) |].
  intros v. apply reads_only_ret.
Qed.

(** What [create_account] leaves in the store, whatever the store fails:
    nothing new, or the new account row on a fresh id, with or without
    its wallet row. *)
Lemma create_account_world (id ty : Z) (w : world) :
  store (create_account id ty w).2 = store w ∨
  (accounts (store w) !! id = None ∧
   ∃ ws,
     store (create_account id ty w).2 =
       Db (<[id := Account ty default_amount]> (accounts (store w))) ws
          (transactions (store w)) ∧
     (ws = wallets (store w) ∨ ws = wallets (store w) ++ [default_wallet id])).
Proof.
  destruct w as [d fs]. cbn [store].
  destruct (accounts d !! id) as [a|] eqn:E.
  { left. unfold create_account, bind, Sql.insert_account, statement.
    cbn [faults store]. destruct fs as [|[] fs]; rewrite ?E; reflexivity. }
  destruct fs as [|[] fs]; [right | by left | right]; (split; [done |]);
    unfold create_account; unfold bind at 1;
    unfold Sql.insert_account at 1, statement at 1; cbn [faults store]; rewrite E;
    (destruct (decide (ty = 0));
       [| eexists; split; [reflexivity | by left]]).
  - eexists. split; [reflexivity | by right].
  - destruct fs as [|[] fs]; eexists; (split; [reflexivity |]); auto.
Qed.

Lemma extends_refl (d : db) : extends d d.
Proof. split; [| split]; [by eauto | done | done]. Qed.

Lemma extends_trans (d1 d2 d3 : db) : extends d1 d2 → extends d2 d3 → extends d1 d3.
Proof.
  intros (Ha & Hl & Hw) (Ha' & Hl' & Hw'). split; [| split].
  - intros k a Hk. destruct (Ha _ _ Hk) as (a1 & Hk1 & Ht1).
    destruct (Ha' _ _ Hk1) as (a2 & Hk2 & Ht2). exists a2. split; [done | congruence].
  - by etrans.
  - intros id [a Hid]. destruct (Ha _ _ Hid) as (a1 & Hk1 & _).
    rewrite Hw' by (by eexists). apply Hw. by eexists.
Qed.

Lemma moved_lookup_type s r a (m : gmap Z account) k :
  acc_type <$> moved s r a m !! k = acc_type <$> m !! k.
Proof.
  unfold moved.
  destruct (decide (k = r)) as [Er|Hr].
  - subst k. rewrite lookup_alter_eq.
    destruct (decide (r = s)) as [Es|Hs].
    + subst s. rewrite lookup_alter_eq. by destruct (m !! r).
    + rewrite lookup_alter_ne by done. by destruct (m !! r).
  - rewrite lookup_alter_ne by done.
    destruct (decide (k = s)) as [Es|Hs].
    + subst k. rewrite lookup_alter_eq. by destruct (m !! s).
    + by rewrite lookup_alter_ne.
Qed.

Lemma rows_after_bump (bump : wallet → wallet) (id k : Z) (ws : list wallet) :
  (∀ w, user_id (bump w) = user_id w) →
  length (filter (λ w, user_id w = k)
            ((λ w, if decide (user_id w = id) then bump w else w) <$> ws)) =
  length (filter (λ w, user_id w = k) ws).
Proof.
  intros Hid. induction ws as [|w ws IH]; [reflexivity |].
  rewrite fmap_cons, !filter_cons.
  assert (user_id (if decide (user_id w = id) then bump w else w) = user_id w) as ->
    by (destruct (decide (user_id w = id)); [apply Hid | done]).
  destruct (decide (user_id w = k)); cbn [length]; by rewrite IH.
Qed.

Lemma extends_bumped (bump : wallet → wallet) (id : Z) (d : db) :
  (∀ w, user_id (bump w) = user_id w) → extends d (bumped bump id d).
Proof.
  intros Hid. split; [| split]; cbn [bumped accounts transactions].
  - eauto.
  - done.
  - intros k _. unfold wallet_rows. cbn [wallets]. by apply rows_after_bump.
Qed.

Lemma inc_steal_extends (bump : wallet → wallet) (id : Z) (w : world) :
  (∀ w, user_id (bump w) = user_id w) →
  extends (store w) (store (inc_steal bump id w).2).
Proof.
  intros Hid. rewrite inc_steal_world.
  destruct (faults w) as [|[] fs]; cbn [snd store];
    try destruct (has_wallet (store w) id);
    auto using extends_refl, extends_bumped.
Qed.

(** One request, whatever the store fails. *)
Lemma serve_extends (req : request) (w : world) :
  extends (store w) (store (serve req w)).
Proof.
  destruct req as [|id|id ty|s r a|id|id|id| |]; cbn [serve].
  - apply extends_refl.
  - rewrite get_wallet_reads_only. apply extends_refl.
  - destruct (create_account_world id ty w) as [->|(Hfresh & ws & -> & Hws)];
      [apply extends_refl |].
    split; [| split]; cbn [accounts transactions].
    + intros k a Hk. exists a. split; [| done].
      rewrite lookup_insert_ne; [done |]. intros ->. by rewrite Hfresh in Hk.
    + done.
    + intros k [a Hk]. unfold wallet_rows. cbn [wallets].
      destruct Hws as [->| ->]; [done |].
      rewrite filter_app, length_app, filter_cons, decide_False; [cbn; lia |].
      cbn. intros ->. by rewrite Hfresh in Hk.
  - destruct (transfer s r a w) as [res w'] eqn:H. cbn [snd].
    apply transfer_outcome in H as [[-> _]|(-> & _)]; [apply extends_refl |].
    split; [| split]; cbn [accounts transactions].
    + intros k b Hk. pose proof (moved_lookup_type s r a (accounts (store w)) k) as Ht.
      rewrite Hk in Ht. cbn in Ht.
      destruct (moved s r a (accounts (store w)) !! k) as [b'|]; [| discriminate Ht].
      exists b'. split; [done |]. by injection Ht.
    + by apply prefix_app_r.
    + done.
  - by apply inc_steal_extends.
  - by apply inc_steal_extends.
  - apply extends_refl.
  - unfold get_gdp_handler. rewrite get_sums_reads_only. apply extends_refl.
  - rewrite get_stats_reads_only. apply extends_refl.
Qed.

Lemma serve_all_extends (reqs : list request) (w : world) :
  extends (store w) (store (serve_all reqs w)).
Proof.
  revert w. induction reqs as [|req reqs IH]; intros w; [apply extends_refl |].
  cbn [serve_all foldl]. eapply extends_trans; [apply serve_extends | apply IH].
Qed.

(** X19. No request deletes or retypes an account or rewrites the log:
    after any sequence of requests to the API, whatever they answer and
    whatever the store fails, every account that existed still exists
    with the type it had, and the transaction log is the old log with
    records appended. *)
Theorem api_never_deletes (reqs : list request) (w : world) :
  (∀ k a, accounts (store w) !! k = Some a →
     ∃ a', accounts (store (serve_all reqs w)) !! k = Some a' ∧
           acc_type a' = acc_type a) ∧
  transactions (store w) `prefix_of` transactions (store (serve_all reqs w)).
Proof.
  destruct (serve_all_extends reqs w) as (Ha & Hl & _). by split.
Qed.

(** X20. Wallet rows come only with a new account: for an account that
    exists, no sequence of requests adds or removes a wallet row.  A user
    account left without its wallet row therefore stays without one
    whatever is sent to the API. *)
Theorem api_keeps_wallet_rows (reqs : list request) (w : world) (id : Z) :
  is_Some (accounts (store w) !! id) →
  wallet_rows (store (serve_all reqs w)) id = wallet_rows (store w) id.
Proof.
  intros Hid. destruct (serve_all_extends reqs w) as (_ & _ & Hw). by apply Hw.
Qed.

Lemma api_keeps_wallet_rows_witness :
  wallet_rows
    (store (serve_all [CreateAccount 42 0; StealUse 42; Transfer 1 42 (dZ 5); GetWallet 42]
              (create_account 42 AccountType.USER (World scenario_db [false; true])).2))
    42 = 0%nat.
Proof.
  apply (api_keeps_wallet_rows
           [CreateAccount 42 0; StealUse 42; Transfer 1 42 (dZ 5); GetWallet 42]
           (create_account 42 AccountType.USER (World scenario_db [false; true])).2 42).
  by eexists.
Defined.

(** X21. An account cannot be created twice: once [create_account] has
    run for an id, whether it created the account or found it taken, a
    second [create_account] for that id with any type raises
    UniqueViolationError and inserts nothing, no second wallet row
    either. *)
Theorem create_account_twice (d : db) (id ty ty' : Z) :
  run (create_account id ty') (run (create_account id ty) d).2 =
    (Raise UniqueViolationError, (run (create_account id ty) d).2).
Proof.
  destruct (accounts d !! id) as [a|] eqn:E.
  - rewrite (create_account_duplicate d id ty) by (by eexists). cbn [snd].
    apply create_account_duplicate. by eexists.
  - rewrite (create_account_run d id ty) by done. cbn [snd].
    apply create_account_duplicate. cbn [accounts]. rewrite lookup_insert_eq. by eexists.
Qed.

(* --------------------------------------------------------------------- *)
(*  Command statistics                                                   *)
(* --------------------------------------------------------------------- *)

Lemma find_one_cons (c : string) (d : Statistics.doc) (coll : Statistics.collection) :
  Statistics.find_one c (d :: coll) =
    if decide (Statistics.has_name c d) then Some d else Statistics.find_one c coll.
Proof.
  unfold Statistics.find_one, Statistics.collection. rewrite filter_cons.
  by destruct (decide (Statistics.has_name c d)).
Qed.

Lemma empty_stats_name (c : string) :
  Statistics.empty_stats c !! "name" = Some (Statistics.Str c).
Proof. unfold Statistics.empty_stats, Statistics.doc. apply lookup_insert_eq. Qed.

Lemma find_one_app_new (c c' : string) (coll : Statistics.collection) :
  Statistics.find_one c' (coll ++ [Statistics.empty_stats c]) =
    match Statistics.find_one c' coll with
    | Some d => Some d
    | None => if decide (c' = c) then Some (Statistics.empty_stats c) else None
    end.
Proof.
  induction coll as [|d coll IH].
  - cbn [app]. rewrite find_one_cons.
    change (Statistics.find_one c' []) with (@None Statistics.doc).
    destruct (decide (Statistics.has_name c' (Statistics.empty_stats c))) as [Hn|Hn];
      unfold Statistics.has_name in Hn; rewrite empty_stats_name in Hn;
      destruct (decide (c' = c)) as [->|Hc]; try done; congruence.
  - cbn [app]. rewrite !find_one_cons.
    by destruct (decide (Statistics.has_name c' d)).
Qed.

Lemma inc_uses_countable (d : Statistics.doc) :
  Statistics.countable_doc d = true →
  ∃ d',
    Statistics.inc_uses d = Statistics.Done d' ∧
    d' !! "name" = d !! "name" ∧
    d' !! "uses" =
      Some (Statistics.Int
              (match d !! "uses" with Some (Statistics.Int n) => n | _ => 0 end + 1)) ∧
    Statistics.countable_doc d' = true.
Proof.
  unfold Statistics.countable_doc, Statistics.inc_uses. intros Hd.
  destruct (d !! "uses") as [[n|s]|] eqn:E; [| discriminate Hd |];
    eexists; (split; [reflexivity |]); unfold Statistics.doc in *;
    (split; [by rewrite lookup_insert_ne |]); rewrite lookup_insert_eq; done.
Qed.

Lemma update_one_counts (c : string) (coll : Statistics.collection) :
  Statistics.countable coll = true →
  ∃ coll',
    Statistics.update_one c coll = Statistics.Done coll' ∧
    Statistics.countable coll' = true ∧
    (∀ d, Statistics.find_one c coll = Some d →
       ∃ d', Statistics.find_one c coll' = Some d' ∧
             d' !! "uses" = Some (Statistics.Int (Statistics.uses_of c coll + 1))) ∧
    (∀ c', c' ≠ c → Statistics.find_one c' coll' = Statistics.find_one c' coll).
Proof.
  induction coll as [|d coll IH]; intros Hc.
  - exists []. split; [done |]. split; [done |].
    split; [intros d Hd; discriminate Hd | done].
  - cbn [Statistics.countable forallb] in Hc. apply andb_prop in Hc as [Hd Hc].
    cbn [Statistics.update_one].
    destruct (decide (Statistics.has_name c d)) as [Hn|Hn].
    + destruct (inc_uses_countable d Hd) as (d' & -> & Hname & Huses & Hd').
      exists (d' :: coll). split; [done |]. split; [| split].
      * cbn [Statistics.countable forallb]. by rewrite Hd'.
      * intros d0 _. exists d'. rewrite find_one_cons, decide_True
          by (unfold Statistics.has_name; by rewrite Hname).
        split; [done |]. rewrite Huses. unfold Statistics.uses_of.
        by rewrite find_one_cons, decide_True.
      * intros c' Hc'. rewrite !find_one_cons.
        assert (¬ Statistics.has_name c' d) as Hno.
        { unfold Statistics.has_name in *. rewrite Hn. intros [= E]. by apply Hc'. }
        rewrite !decide_False; [done | done |].
        unfold Statistics.has_name in *. by rewrite Hname.
    + destruct (IH Hc) as (coll' & -> & Hc' & Hfound & Hother).
      exists (d :: coll'). split; [done |]. split; [| split].
      * cbn [Statistics.countable forallb]. by rewrite Hd.
      * intros d0. rewrite !find_one_cons, !decide_False by done.
        intros H0. destruct (Hfound _ H0) as (d' & Hf & Hu). exists d'.
        split; [done |]. rewrite Hu. unfold Statistics.uses_of.
        by rewrite find_one_cons, decide_False.
      * intros c' Hne. rewrite !find_one_cons.
        destruct (decide (Statistics.has_name c' d)); [done | by apply Hother].
Qed.

(** The listener after one command, on a collection it can count in. *)
Lemma on_command_counts (c : string) (coll : Statistics.collection) :
  Statistics.countable coll = true →
  ∃ coll',
    Statistics.on_command c coll = Statistics.Done coll' ∧
    Statistics.countable coll' = true ∧
    (∃ d', Statistics.find_one c coll' = Some d' ∧
           d' !! "uses" = Some (Statistics.Int (Statistics.uses_of c coll + 1))) ∧
    (∀ c', c' ≠ c → Statistics.find_one c' coll' = Statistics.find_one c' coll).
Proof.
  intros Hc. unfold Statistics.on_command. cbn zeta.
  destruct (Statistics.find_one c coll) as [d|] eqn:E.
  - destruct (update_one_counts c coll Hc) as (coll' & Hu & Hc' & Hfound & Hother).
    exists coll'. split; [done |]. split; [done |]. split; [| done].
    by apply (Hfound d).
  - assert (Statistics.countable (Statistics.insert_one (Statistics.empty_stats c) coll)
            = true) as Hc1.
    { unfold Statistics.countable, Statistics.insert_one.
      rewrite forallb_app. unfold Statistics.countable in Hc. by rewrite Hc. }
    destruct (update_one_counts c _ Hc1) as (coll' & Hu & Hc' & Hfound & Hother).
    exists coll'. split; [done |]. split; [done |].
    assert (Statistics.find_one c (Statistics.insert_one (Statistics.empty_stats c) coll)
            = Some (Statistics.empty_stats c)) as Hnew.
    { unfold Statistics.insert_one. by rewrite find_one_app_new, E, decide_True. }
    split.
    + destruct (Hfound _ Hnew) as (d' & Hf & Hd'). exists d'. split; [done |].
      rewrite Hd'. unfold Statistics.uses_of. by rewrite Hnew, E.
    + intros c' Hne. rewrite (Hother c' Hne). unfold Statistics.insert_one.
      rewrite find_one_app_new.
      destruct (Statistics.find_one c' coll); [done |]. by rewrite decide_False.
Qed.

Lemma times_absent (c : string) (cs : list string) : c ∉ cs → Statistics.times c cs = 0.
Proof.
  induction cs as [|c0 cs IH]; intros Hc; [done |].
  apply not_elem_of_cons in Hc as [Hne Hc]. cbn [Statistics.times].
  rewrite decide_False by done. by rewrite IH.
Qed.

Lemma on_commands_count (cs : list string) (coll : Statistics.collection) :
  Statistics.countable coll = true →
  ∃ coll',
    Statistics.on_commands cs coll = Statistics.Done coll' ∧
    (∀ c, Statistics.uses_of c coll' = Statistics.uses_of c coll + Statistics.times c cs) ∧
    (∀ c, c ∉ cs → Statistics.find_one c coll' = Statistics.find_one c coll) ∧
    (∀ c, c ∈ cs → recorded c coll').
Proof.
  revert coll. induction cs as [|c0 cs IH]; intros coll Hc.
  - exists coll. split; [done |]. split; [intros c; cbn; lia |].
    split; [done | intros c Hin; inversion Hin].
  - destruct (on_command_counts c0 coll Hc) as (coll1 & H1 & Hc1 & (d1 & Hf1 & Hu1) & Ho1).
    destruct (IH coll1 Hc1) as (coll' & H' & Huses & Hkeep & Hrec).
    exists coll'. cbn [Statistics.on_commands]. rewrite H1. split; [done |].
    assert (∀ c, Statistics.uses_of c coll1 =
                 Statistics.uses_of c coll + if decide (c0 = c) then 1 else 0) as Hstep.
    { intros c. destruct (decide (c0 = c)) as [<-|Hne].
      - unfold Statistics.uses_of at 1. by rewrite Hf1, Hu1.
      - unfold Statistics.uses_of. rewrite Ho1 by done. lia. }
    split; [| split].
    + intros c. rewrite Huses, Hstep. cbn [Statistics.times]. lia.
    + intros c Hno. apply not_elem_of_cons in Hno as [Hne Hno].
      rewrite Hkeep by done. by apply Ho1.
    + intros c Hin. destruct (decide (c ∈ cs)) as [Hcs|Hcs]; [by apply Hrec |].
      apply elem_of_cons in Hin as [->|Hin]; [| done].
      unfold recorded. rewrite Hkeep by done. eauto.
Qed.

(** X22. Command uses are counted.  On a collection in which no [uses]
    field holds something that is not a number, the listener runs through
    any sequence of commands without an error; afterwards [cstat] reports
    for each command of the sequence the uses it had before (none, when
    it had no document) plus the number of times it occurs in the
    sequence, and for every other command what it reported before. *)
Theorem commands_are_counted (cs : list string) (coll : Statistics.collection) :
  Statistics.countable coll = true →
  ∃ coll',
    Statistics.on_commands cs coll = Statistics.Done coll' ∧
    ∀ c,
      (c ∈ cs →
       Statistics.command_stat c coll' =
         Statistics.Done
           (uses_message c (Statistics.uses_of c coll + Statistics.times c cs))) ∧
      (c ∉ cs →
       Statistics.command_stat c coll' = Statistics.command_stat c coll).
Proof.
  intros Hc. destruct (on_commands_count cs coll Hc) as (coll' & H & Huses & Hkeep & Hrec).
  exists coll'. split; [done |]. intros c. split.
  - intros Hin. destruct (Hrec c Hin) as (d & n & Hf & Hn).
    rewrite <- Huses. unfold Statistics.command_stat, Statistics.uses_of.
    by rewrite Hf, Hn.
  - intros Hno. unfold Statistics.command_stat. by rewrite Hkeep.
Qed.

Lemma commands_are_counted_witness :
  ∃ coll',
    Statistics.on_commands ["ping"; "help"; "ping"] ping_stats = Statistics.Done coll' ∧
    ∀ c,
      (c ∈ ["ping"; "help"; "ping"] →
       Statistics.command_stat c coll' =
         Statistics.Done
           (uses_message c
              (Statistics.uses_of c ping_stats +
               Statistics.times c ["ping"; "help"; "ping"]))) ∧
      (c ∉ ["ping"; "help"; "ping"] →
       Statistics.command_stat c coll' = Statistics.command_stat c ping_stats).
Proof.
  apply (commands_are_counted ["ping"; "help"; "ping"] ping_stats).
  vm_compute. reflexivity.
Defined.

Lemma find_one_names (c : string) (coll : Statistics.collection) :
  Statistics.find_one c coll = None ↔ Some (Statistics.Str c) ∉ names coll.
Proof.
  induction coll as [|d coll IH].
  - split; [intros _ Hin; inversion Hin | done].
  - rewrite find_one_cons. unfold names in *. rewrite fmap_cons, not_elem_of_cons.
    destruct (decide (Statistics.has_name c d)) as [Hn|Hn].
    + split; [done |]. intros [Hne _]. unfold Statistics.has_name in Hn. congruence.
    + rewrite IH. split; [| by intros [_ ?]].
      intros Hno. split; [| done]. unfold Statistics.has_name in Hn. congruence.
Qed.

Lemma inc_uses_name (d d' : Statistics.doc) :
  Statistics.inc_uses d = Statistics.Done d' → d' !! "name" = d !! "name".
Proof.
  unfold Statistics.inc_uses.
  destruct (d !! "uses") as [[n|s]|]; intros H; try discriminate H;
    injection H as <-; unfold Statistics.doc in *; by rewrite lookup_insert_ne.
Qed.

Lemma update_one_names (c : string) (coll coll' : Statistics.collection) :
  Statistics.update_one c coll = Statistics.Done coll' →
  names coll' = names coll ∧
  ∀ (i : nat) d, coll !! i = Some d → ¬ Statistics.has_name c d → coll' !! i = Some d.
Proof.
  revert coll'. induction coll as [|d coll IH]; intros coll' H.
  - by injection H as <-.
  - cbn [Statistics.update_one] in H.
    destruct (decide (Statistics.has_name c d)) as [Hn|Hn].
    + destruct (Statistics.inc_uses d) as [d'|e] eqn:E; [| discriminate H].
      injection H as <-. split.
      * unfold names. rewrite !fmap_cons. f_equal. by apply inc_uses_name.
      * intros [|i] d0 Hi Hno; [| done]. injection Hi as <-. done.
    + destruct (Statistics.update_one c coll) as [coll1|e]; [| discriminate H].
      injection H as <-. destruct (IH coll1 eq_refl) as [Hnames Hkeep]. split.
      * unfold names in *. rewrite !fmap_cons. by rewrite Hnames.
      * intros [|i] d0 Hi Hno; [done |]. by apply (Hkeep i).
Qed.

Lemma on_command_names (c : string) (coll coll' : Statistics.collection) :
  Statistics.on_command c coll = Statistics.Done coll' →
  names coll' =
    names coll ++
      (if decide (Some (Statistics.Str c) ∈ names coll) then []
       else [Some (Statistics.Str c)]) ∧
  ∀ (i : nat) d, coll !! i = Some d → ¬ Statistics.has_name c d → coll' !! i = Some d.
Proof.
  unfold Statistics.on_command. cbn zeta. intros H.
  apply update_one_names in H as [Hnames Hkeep].
  destruct (Statistics.find_one c coll) as [d|] eqn:E.
  - rewrite decide_True, app_nil_r; [done |].
    destruct (decide (Some (Statistics.Str c) ∈ names coll)) as [|Hno]; [done |].
    apply find_one_names in Hno. congruence.
  - rewrite decide_False by (by apply find_one_names). split.
    + rewrite Hnames. unfold names, Statistics.insert_one.
      by rewrite fmap_app, fmap_cons, empty_stats_name.
    + intros i d Hi Hno. apply Hkeep; [| done].
      unfold Statistics.insert_one. by apply lookup_app_l_Some.
Qed.

(** X23. The listener never removes, renames or duplicates a document.
    After any sequence of commands that it runs through, the collection
    has its old documents under their old names, in their old order,
    followed by one new document for each command of the sequence that
    had none, each such command once; and every document that is not
    named after a command of the sequence (the coin transfer counter
    that [jcoin_stats] reads is one) is exactly as it was. *)
Theorem commands_keep_documents (cs : list string) (coll coll' : Statistics.collection) :
  Statistics.on_commands cs coll = Statistics.Done coll' →
  (∃ new : list string,
     names coll' = names coll ++ ((λ c, Some (Statistics.Str c)) <$> new) ∧
     NoDup new ∧
     ∀ c, c ∈ new ↔ c ∈ cs ∧ Statistics.find_one c coll = None) ∧
  (∀ (i : nat) d, coll !! i = Some d →
     (∀ c, c ∈ cs → ¬ Statistics.has_name c d) → coll' !! i = Some d).
Proof.
  revert coll. induction cs as [|c0 cs IH]; intros coll H.
  - injection H as <-. split; [| done]. exists []. rewrite app_nil_r.
    split; [done |]. split; [constructor |].
    intros c. split; [intros Hin; inversion Hin | intros [Hin _]; inversion Hin].
  - cbn [Statistics.on_commands] in H.
    destruct (Statistics.on_command c0 coll) as [coll1|e] eqn:E1; [| discriminate H].
    apply on_command_names in E1 as [Hn1 Hk1].
    destruct (IH _ H) as [(new & Hn & Hnd & Hnew) Hk]. split.
    + assert (Some (Statistics.Str c0) ∈ names coll1) as Hc0.
      { rewrite Hn1. apply elem_of_app.
        destruct (decide (Some (Statistics.Str c0) ∈ names coll));
          [by left | right; apply list_elem_of_here]. }
      assert (c0 ∉ new) as Hc0new.
      { intros Hin. apply Hnew in Hin as [_ Hin]. by apply find_one_names in Hin. }
      assert (∀ c, Statistics.find_one c coll1 = None ↔
                   c ≠ c0 ∧ Statistics.find_one c coll = None) as Hfind.
      { intros c. rewrite !find_one_names, Hn1.
        destruct (decide (Some (Statistics.Str c0) ∈ names coll)) as [Hin|Hin].
        - rewrite app_nil_r. split; [| by intros [_ ?]].
          intros Hno. split; [| done]. intros ->. done.
        - rewrite not_elem_of_app, list_elem_of_singleton. split.
          + intros [Hno Hne]. split; [| done]. intros ->. done.
          + intros [Hne Hno]. split; [done |]. intros [= ->]. done. }
      destruct (decide (Some (Statistics.Str c0) ∈ names coll)) as [Hin|Hin].
      * exists new. rewrite app_nil_r in Hn1. rewrite Hn, Hn1.
        split; [done |]. split; [done |]. intros c. rewrite Hnew, Hfind, elem_of_cons.
        split; [intros (? & ? & ?); auto |].
        intros [[->|Hcs] Hnone]; [by apply find_one_names in Hnone |].
        split; [done |]. split; [| done]. intros ->. by apply find_one_names in Hnone.
      * exists (c0 :: new). rewrite Hn, Hn1, <- app_assoc. cbn [app fmap list_fmap].
        split; [done |]. split; [by constructor |]. intros c.
        rewrite !elem_of_cons, Hnew, Hfind. split.
        -- intros [->|(? & ? & ?)]; [| auto]. split; [by left |].
           by apply find_one_names.
        -- intros [[->|Hcs] Hnone]; [by left |].
           destruct (decide (c = c0)) as [->|Hne]; [by left | right; auto].
    + intros i d Hi Hno. apply Hk.
      * apply Hk1; [done |]. apply Hno. by left.
      * intros c Hc. apply Hno. by right.
Qed.

Lemma commands_keep_documents_witness :
  (∃ new : list string,
     names ping_stats_after =
       names ping_stats ++ ((λ c, Some (Statistics.Str c)) <$> new) ∧
     NoDup new ∧
     ∀ c, c ∈ new ↔
          c ∈ ["ping"; "help"; "ping"] ∧ Statistics.find_one c ping_stats = None) ∧
  (∀ (i : nat) d, ping_stats !! i = Some d →
     (∀ c, c ∈ ["ping"; "help"; "ping"] → ¬ Statistics.has_name c d) →
     ping_stats_after !! i = Some d).
Proof.
  apply (commands_keep_documents ["ping"; "help"; "ping"] ping_stats ping_stats_after).
  vm_compute. reflexivity.
Defined.
